(** * Alpha-Rocket: the sensor-fusion and logging loop of [Alpha-Rocket.py]

    The script is a CircuitPython logger: it captures a baseline pressure and
    a first tilt estimate, writes a CSV header, and then loops forever,
    turning each sensor reading into one CSV line.

    Modelling choices.
    - Python [float] values are modelled as real numbers ([R]): rounding,
      infinities and NaN are not modelled.
    - Python operations that can raise are modelled in an error monad
      ([result]): float division raises [ZeroDivisionError] on a zero
      divisor, [math.sqrt] raises on a negative argument.  The fractional
      power of a negative number is not a float (a complex number, or an
      error where the interpreter has none): the model marks it
      [NotReal] and says nothing about the run after it.
    - Where a property turns on what real numbers cannot express (the
      sign of zero, infinities), the expression is also embedded on
      binary64 floats, in the module [b64].
    - The sensors and the clock are inputs: one [Reading] per iteration.
    - File and console effects are an event trace ([event]). *)

From Stdlib Require Import Reals Lra Lia ZArith List String Ascii Bool.
From Stdlib Require Import Decimal DecimalString DecimalPos DecimalN.
From Stdlib Require Finite.
From Stdlib Require PrimFloat.
Import ListNotations.

Open Scope R_scope.

(** ** Python arithmetic *)

Inductive exn : Type :=
| ZeroDivisionError
| ValueError.

(** The outcome of evaluating an expression: a value, an exception, or
    [NotReal]: the value is not a float.  The last one stands for the
    fractional power of a negative number, which is a complex number on an
    interpreter with complex numbers and an error on one built without
    them; the development does not follow a run past it. *)
Inductive result (A : Type) : Type :=
| Ok (a : A)
| Raise (e : exn)
| NotReal.

Arguments Ok {A} a.
Arguments Raise {A} e.
Arguments NotReal {A}.

Definition bind {A B : Type} (m : result A) (k : A -> result B) : result B :=
  match m with
  | Ok a => k a
  | Raise e => Raise e
  | NotReal => NotReal
  end.

Notation "x <- m ;; k" := (bind m (fun x => k))
  (at level 61, m at next level, right associativity).
Notation "' pat <- m ;; k" := (bind m (fun x => match x with pat => k end))
  (at level 61, pat pattern, m at next level, right associativity).

(** [x / y] on floats. *)
Definition py_div (x y : R) : result R :=
  if Req_dec_T y 0 then Raise ZeroDivisionError else Ok (x / y).

(** [y] is a whole number ([y == floor(y)]). *)
Definition is_whole (y : R) : {IZR (Int_part y) = y} + {IZR (Int_part y) <> y} :=
  Req_dec_T (IZR (Int_part y)) y.

(** [pow(x, y)] on floats: a zero base with a negative exponent is a
    division by zero; a negative base with a fractional exponent has no
    real value ([NotReal]). *)
Definition py_pow (x y : R) : result R :=
  if Req_dec_T x 0 then
    if Rlt_dec y 0 then Raise ZeroDivisionError
    else if Req_dec_T y 0 then Ok 1 else Ok 0
  else if Rlt_dec x 0 then
    if is_whole y then Ok (powerRZ x (Int_part y)) else NotReal
  else Ok (Rpower x y).

Module math.

(** [math.sqrt(x)] *)
Definition sqrt (x : R) : result R :=
  if Rlt_dec x 0 then Raise ValueError else Ok (R_sqrt.sqrt x).

(** [math.atan2(y, x)]: the angle of the point [(x, y)], in the interval
    from [-PI] (excluded) to [PI]; it is defined everywhere.  A real zero
    stands for the float [+0.0]: [atan2(+0.0, +0.0)] is [0] and
    [atan2(+0.0, x)] is [PI] for negative [x].  What the function does
    on [-0.0] is in [b64.atan2]. *)
Definition atan2 (y x : R) : R :=
  if Rlt_dec 0 x then atan (y / x)
  else if Rlt_dec x 0 then
    if Rle_dec 0 y then atan (y / x) + PI else atan (y / x) - PI
  else if Rlt_dec 0 y then PI / 2
  else if Rlt_dec y 0 then - PI / 2
  else 0.

(** [math.degrees(x)] *)
Definition degrees (x : R) : R := x * (180 / PI).

End math.

(** ** Fixed-point formatting: the [:.Nf] format specifications *)

Open Scope string_scope.

Definition digit (n : Z) : ascii := ascii_of_nat (48 + Z.to_nat (n mod 10)).

(** The [d] low-order decimal digits of [n], most significant first. *)
Fixpoint fixed_digits (d : nat) (n : Z) : string :=
  match d with
  | O => ""
  | S d' => fixed_digits d' (n / 10) ++ String (digit n) ""
  end.

(** The decimal numeral of a natural number, without leading zeros. *)
Definition numeral (n : Z) : string :=
  NilEmpty.string_of_uint (N.to_uint (Z.to_N n)).

(** Rounding to the nearest integer, ties to even. *)
Definition round_half_even (x : R) : Z :=
  let f := Int_part x in
  let r := x - IZR f in
  if Rlt_dec r (1 / 2) then f
  else if Rlt_dec (1 / 2) r then (f + 1)%Z
  else if Z.even f then f else (f + 1)%Z.

(** [format(x, ".df")] for a finite [x]: sign, integer part, and [d]
    decimals of [x] rounded to [d] decimal places.  A real zero stands
    for [+0.0], which prints no sign; what is printed for a value that
    is not finite is in [b64.format_nonfinite]. *)
Definition format_f (d : nat) (x : R) : string :=
  let n := round_half_even (Rabs x * 10 ^ d) in
  (if Rlt_dec x 0 then "-" else "")
  ++ numeral (n / 10 ^ Z.of_nat d)
  ++ (match d with O => "" | S _ => "." end)
  ++ fixed_digits d n.

(** ** The helpers and the loop body *)

(** [accel_angles_deg(ax, ay, az)] *)
Definition accel_angles_deg (ax ay az : R) : result (R * R) :=
  let roll := math.degrees (math.atan2 ay az) in
  h <- math.sqrt (ay * ay + az * az) ;;
  let pitch := math.degrees (math.atan2 (- ax) h) in
  Ok (roll, pitch).

(** The altitude expression
    [44330.0 * (1.0 - pow(p / p0, 1.0 / 5.255))] bound to [alt_m]. *)
Definition alt_m (p p0 : R) : result R :=
  ratio <- py_div p p0 ;;
  e <- py_div 1 5.255 ;;
  w <- py_pow ratio e ;;
  Ok (44330 * (1 - w)).

Definition alpha : R := 0.98.

(** The complementary filter for the angles: the four statements after
    the comment [# Complementary filter for angles]. *)
Definition filter_update (roll pitch ax ay az gx gy gz dt : R) : result (R * R) :=
  '(roll_acc, pitch_acc) <- accel_angles_deg ax ay az ;;
  let roll' := alpha * (roll + gx * dt) + (1 - alpha) * roll_acc in
  let pitch' := alpha * (pitch + gy * dt) + (1 - alpha) * pitch_acc in
  Ok (roll', pitch').

(** [accel_g]: the acceleration magnitude in g. *)
Definition accel_magnitude_g (ax ay az : R) : result R :=
  m <- math.sqrt (ax * ax + ay * ay + az * az) ;;
  py_div m 9.80665.

Definition LF : string := String (ascii_of_nat 10) "".

(** The CSV row [f"{alt_m:.2f},{accel_g:.3f},{roll:.2f},{pitch:.2f}\n"] *)
Definition csv_row (alt accel_g roll pitch : R) : string :=
  format_f 2 alt ++ "," ++ format_f 3 accel_g ++ ","
  ++ format_f 2 roll ++ "," ++ format_f 2 pitch ++ LF.

(** The status line
    [f"alt={alt_m:.2f} m, a={accel_g:.3f} g, roll={roll:.1f}°, pitch={pitch:.1f}°"] *)
Definition status_line (alt accel_g roll pitch : R) : string :=
  "alt=" ++ format_f 2 alt ++ " m, a=" ++ format_f 3 accel_g
  ++ " g, roll=" ++ format_f 1 roll ++ "°, pitch=" ++ format_f 1 pitch ++ "°".

Definition csv_header : string := "alt_m,accel_g,roll_deg,pitch_deg" ++ LF.

Definition flush_every : Z := 25.

(** What the sensors and the clock return in one iteration. *)
Record Reading : Type := mkReading {
  now : R;                      (* time.monotonic() *)
  acceleration : R * R * R;     (* mpu.acceleration, m/s^2 *)
  gyro : R * R * R;             (* mpu.gyro, deg/s *)
  pressure : R                  (* bmp.pressure, hPa *)
}.

(** The module-level variables the loop reads and assigns. *)
Record State : Type := mkState {
  p0 : R;
  roll : R;
  pitch : R;
  last_t : R;
  last_status : R;
  line_count : Z
}.

(** The effects of the script on the log file and the console. *)
Inductive event : Type :=
| OpenW (path : string)      (* open(path, "w") *)
| OpenA (path : string)      (* open(path, "a") *)
| Write (s : string)         (* f.write(s) *)
| Flush                      (* f.flush() *)
| Close                      (* leaving a with block *)
| Print (s : string)         (* print(s) *)
| Sleep (seconds : R).       (* time.sleep(seconds) *)

(** One pass through the body of [while True]. *)
Definition loop_body (s : State) (i : Reading) : result (State * list event) :=
  let now := now i in
  let dt := (now - last_t s)%R in
  let '(ax, ay, az) := acceleration i in
  let '(gx, gy, gz) := gyro i in
  let p := pressure i in
  alt <- alt_m p (p0 s) ;;
  '(roll', pitch') <- filter_update (roll s) (pitch s) ax ay az gx gy gz dt ;;
  accel_g <- accel_magnitude_g ax ay az ;;
  let line_count' := (line_count s + 1)%Z in
  let flushed :=
    if (line_count' mod flush_every =? 0)%Z then [Flush] else [] in
  let status := if Rle_dec 1 (now - last_status s) then true else false in
  Ok ({| p0 := p0 s;
         roll := roll';
         pitch := pitch';
         last_t := now;
         last_status := if status then now else last_status s;
         line_count := line_count' |},
      [Write (csv_row alt accel_g roll' pitch')]
      ++ flushed
      ++ (if status then [Print (status_line alt accel_g roll' pitch')] else [])
      ++ [Sleep 0.05])%list.

(** The statements before the loop: the baselines, the header, the
    counters.  [csv_path] is the name [next_csv()] returned. *)
Definition startup (csv_path : string) (boot : Reading) : result (State * list event) :=
  let '(ax, ay, az) := acceleration boot in
  '(roll0, pitch0) <- accel_angles_deg ax ay az ;;
  Ok ({| p0 := pressure boot;
         roll := roll0;
         pitch := pitch0;
         last_t := now boot;
         last_status := now boot;
         line_count := 0 |},
      [OpenW csv_path; Write csv_header; Close;
       Print ("Logging to: " ++ csv_path);
       OpenA csv_path]).

(** The loop, for as many iterations as there are readings. *)
Fixpoint iterate (s : State) (readings : list Reading) : result (State * list event) :=
  match readings with
  | [] => Ok (s, [])
  | i :: rest =>
      '(s1, evs1) <- loop_body s i ;;
      '(s2, evs2) <- iterate s1 rest ;;
      Ok (s2, evs1 ++ evs2)%list
  end.

(** The script from the baselines on, stopped after [readings]. *)
Definition script (csv_path : string) (boot : Reading) (readings : list Reading)
  : result (State * list event) :=
  '(s0, evs0) <- startup csv_path boot ;;
  '(s, evs) <- iterate s0 readings ;;
  Ok (s, evs0 ++ evs)%list.

(** ** Choosing the file name *)

Fixpoint zeros (k : nat) : string :=
  match k with
  | O => ""
  | S k' => String "0" (zeros k')
  end.

(** [f"{n:03d}"]: the decimal numeral of [n], padded with zeros on the
    left to three characters, the sign included. *)
Definition format_03d (n : Z) : string :=
  if (n <? 0)%Z
  then "-" ++ zeros (2 - String.length (numeral (- n))) ++ numeral (- n)
  else zeros (3 - String.length (numeral n)) ++ numeral n.

(** The name [f"{path}/{prefix}{n:03d}{ext}"] *)
Definition csv_name (path prefix ext : string) (n : Z) : string :=
  path ++ "/" ++ prefix ++ format_03d n ++ ext.

(** The loop of [next_csv], from the counter [n]: [can_open name] tells
    whether [open(name, "r")] succeeds; [fuel] bounds the number of
    probes. *)
Fixpoint next_csv_from (can_open : string -> bool) (path prefix ext : string)
         (fuel : nat) (n : Z) : option string :=
  match fuel with
  | O => None
  | S fuel' =>
      let name := csv_name path prefix ext n in
      if can_open name
      then next_csv_from can_open path prefix ext fuel' (n + 1)
      else Some name
  end.

(** [next_csv(path, prefix, ext)] *)
Definition next_csv (can_open : string -> bool) (path prefix ext : string)
           (fuel : nat) : option string :=
  next_csv_from can_open path prefix ext fuel 1.

(** The script from [csv_path = next_csv()] on. *)
Definition boot_script (can_open : string -> bool) (fuel : nat)
           (boot : Reading) (readings : list Reading)
  : option (result (State * list event)) :=
  match next_csv can_open "/logs" "log_" ".csv" fuel with
  | Some csv_path => Some (script csv_path boot readings)
  | None => None
  end.

(** Reading a zero-padded numeral back. *)
Definition read_numeral (s : string) : option N :=
  option_map N.of_uint (NilEmpty.uint_of_string s).

(** ** Observations on states and traces *)

(** The events of one iteration, given the values it computed. *)
Definition iteration_events (s : State) (i : Reading) (alt g r' p' : R) : list event :=
  [Write (csv_row alt g r' p')]
  ++ (if (((line_count s + 1) mod flush_every) =? 0)%Z then [Flush] else [])
  ++ (if Rle_dec 1 (now i - last_status s)
      then [Print (status_line alt g r' p')] else [])
  ++ [Sleep 0.05].

(** The strings written to the log file, in order. *)
Fixpoint writes (evs : list event) : list string :=
  match evs with
  | [] => []
  | Write l :: rest => l :: writes rest
  | _ :: rest => writes rest
  end.

(** The lines of the log file after the events [evs], when it held
    [content] before: opening in mode ["w"] truncates, writing appends. *)
Fixpoint file_after (evs : list event) (content : list string) : list string :=
  match evs with
  | [] => content
  | OpenW _ :: rest => file_after rest []
  | Write l :: rest => file_after rest (content ++ [l])
  | _ :: rest => file_after rest content
  end.

Definition file_contents (evs : list event) : list string := file_after evs [].

(** The number of [f.flush()] calls. *)
Fixpoint flush_count (evs : list event) : nat :=
  match evs with
  | [] => O
  | Flush :: rest => S (flush_count rest)
  | _ :: rest => flush_count rest
  end.

(** What an iteration logs and keeps: the lines written, the new
    angles and the new counter; or the exception that ended it. *)
Definition logged (r : result (State * list event)) : result (list string * R * R * Z) :=
  '(s, evs) <- r ;;
  Ok (writes evs, roll s, pitch s, line_count s).

(** ** The shape of formatted numbers *)

Definition is_digit (c : ascii) : bool :=
  ((48 <=? nat_of_ascii c) && (nat_of_ascii c <=? 57))%nat.

Fixpoint all_digits (s : string) : bool :=
  match s with
  | "" => true
  | String c rest => is_digit c && all_digits rest
  end.

(** A fixed-point numeral with [d] decimals: optional minus sign, at
    least one integer digit, a point, exactly [d] digits. *)
Definition fixed_point (d : nat) (s : string) : Prop :=
  exists sign int_part decimals,
    s = sign ++ int_part ++ "." ++ decimals
    /\ (sign = "" \/ sign = "-")
    /\ int_part <> ""
    /\ all_digits int_part = true
    /\ all_digits decimals = true
    /\ String.length decimals = d.

(** A data line: four fixed-point numerals with 2, 3, 2 and 2 decimals,
    separated by commas, ended by a line feed. *)
Definition data_line (l : string) : Prop :=
  exists a g r p,
    l = a ++ "," ++ g ++ "," ++ r ++ "," ++ p ++ LF
    /\ fixed_point 2 a /\ fixed_point 3 g /\ fixed_point 2 r /\ fixed_point 2 p.

(** Reading digits back: the number a string of digits denotes, after the
    digits already read gave [acc]. *)
Definition digit_value (c : ascii) : option Z :=
  if is_digit c then Some (Z.of_nat (nat_of_ascii c) - 48)%Z else None.

Fixpoint digits_value (s : string) (acc : Z) : option Z :=
  match s with
  | "" => Some acc
  | String c rest =>
      match digit_value c with
      | Some v => digits_value rest (10 * acc + v)
      | None => None
      end
  end.

(** The same on the decimal numerals of the library. *)
Fixpoint uint_value (u : Decimal.uint) (acc : Z) : Z :=
  match u with
  | Decimal.Nil => acc
  | Decimal.D0 l => uint_value l (10 * acc + 0)
  | Decimal.D1 l => uint_value l (10 * acc + 1)
  | Decimal.D2 l => uint_value l (10 * acc + 2)
  | Decimal.D3 l => uint_value l (10 * acc + 3)
  | Decimal.D4 l => uint_value l (10 * acc + 4)
  | Decimal.D5 l => uint_value l (10 * acc + 5)
  | Decimal.D6 l => uint_value l (10 * acc + 6)
  | Decimal.D7 l => uint_value l (10 * acc + 7)
  | Decimal.D8 l => uint_value l (10 * acc + 8)
  | Decimal.D9 l => uint_value l (10 * acc + 9)
  end%Z.

(** [s] shows [x] to [d] decimals: a fixed-point numeral whose digits,
    read back as the integer [n], give [n / 10^d] within half a unit of
    the last decimal of [|x|], with a minus sign when [x] is negative and
    none when it is positive. *)
Definition shows (d : nat) (x : R) (s : string) : Prop :=
  exists sign int_part decimals n,
    s = sign ++ int_part ++ "." ++ decimals
    /\ (sign = "" \/ sign = "-")
    /\ (x < 0 -> sign = "-")
    /\ (0 < x -> sign = "")
    /\ int_part <> ""
    /\ String.length decimals = d
    /\ digits_value (int_part ++ decimals) 0 = Some n
    /\ Rabs (IZR n / 10 ^ d - Rabs x) <= / 2 / 10 ^ d.

(** [l] is the data line of the four values: each shown to 2, 3, 2 and 2
    decimals, separated by commas, ended by a line feed. *)
Definition row_shows (alt g r p : R) (l : string) : Prop :=
  exists a b c e,
    l = a ++ "," ++ b ++ "," ++ c ++ "," ++ e ++ LF
    /\ shows 2 alt a /\ shows 3 g b /\ shows 2 r c /\ shows 2 p e.

Close Scope string_scope.

(** ** The expressions on binary64 floats

    The parts of the script whose behaviour turns on the sign of zero or
    on infinities, on IEEE 754 binary64 numbers (Python's [float]): the
    arithmetic is the processor's; [math.atan2] is given where the rules
    for zeros and infinities fix its value, and left open ([None]) where
    the value is that of the C library. *)

Module b64.

Import PrimFloat.
#[local] Set Warnings "-inexact-float".
#[local] Open Scope float_scope.

(** The sign bit of a number that is not a NaN. *)
Definition sign_bit (x : float) : bool :=
  match classify x with
  | FloatClass.NInf | FloatClass.NNormal | FloatClass.NSubn | FloatClass.NZero => true
  | _ => false
  end.

(** [copysign(m, s)] *)
Definition copysign (m s : float) : float :=
  if sign_bit s then - abs m else abs m.

(** [math.pi] *)
Definition pi : float := 3.141592653589793.

(** [math.degrees(x)] *)
Definition degrees (x : float) : float := x * (180 / pi).

(** [math.atan2(y, x)]: NaN for a NaN argument; for an infinite [y]
    three quarters, one quarter or half of [pi]; for an infinite [x] or a
    zero [y], zero or [pi] by the sign of [x]; each with the sign of
    [y].  Elsewhere the C library computes it. *)
Definition atan2 (y x : float) : option float :=
  if is_nan x || is_nan y then Some nan
  else if is_infinity y then
    if is_infinity x then
      if sign_bit x then Some (copysign (0.75 * pi) y)
      else Some (copysign (0.25 * pi) y)
    else Some (copysign (0.5 * pi) y)
  else if is_infinity x || (y =? 0) then
    if sign_bit x then Some (copysign pi y) else Some (copysign 0 y)
  else None.

(** [accel_angles_deg(ax, ay, az)]: roll and pitch, each where
    [atan2] is given.  The argument of [math.sqrt] is a sum of squares,
    so [math.sqrt] does not raise. *)
Definition accel_angles_deg (ax ay az : float) : option float * option float :=
  let roll := option_map degrees (atan2 ay az) in
  let pitch := option_map degrees (atan2 (- ax) (sqrt (ay * ay + az * az))) in
  (roll, pitch).

(** [accel_g = math.sqrt(ax*ax + ay*ay + az*az) / 9.80665] *)
Definition accel_g (ax ay az : float) : float :=
  sqrt (ax * ax + ay * ay + az * az) / 9.80665.

(** [format(x, ".Nf")] for an [x] that is not finite; a finite [x] is
    printed as a numeral ([None] here, [format_f] on reals). *)
Definition format_nonfinite (x : float) : option string :=
  if is_nan x then Some "nan"%string
  else if is_infinity x then Some (if sign_bit x then "-inf" else "inf")%string
  else None.

End b64.

(** ** Sample inputs *)

(** A reading of the board at rest and level, at time [t], pressure [p]. *)
Definition level_reading (t p : R) : Reading :=
  {| now := t; acceleration := (0, 0, 9.80665); gyro := (0, 0, 0); pressure := p |}.

(** The state after a boot at rest, at sea-level standard pressure. *)
Definition ground_state : State :=
  {| p0 := 1013.25; roll := 0; pitch := 0;
     last_t := 0; last_status := 0; line_count := 0 |}.

(** A card that already holds [log_001.csv] and [log_002.csv]. *)
Definition two_logs (name : string) : bool :=
  (String.eqb name "/logs/log_001.csv" || String.eqb name "/logs/log_002.csv")%bool.

(** Opening a file to write to it, in mode ["w"] or ["a"]. *)
Definition opens_to_write (ev : event) : bool :=
  match ev with
  | OpenW _ | OpenA _ => true
  | _ => false
  end.

(** The lines printed on the console, in order. *)
Fixpoint prints (evs : list event) : list string :=
  match evs with
  | [] => []
  | Print l :: rest => l :: prints rest
  | _ :: rest => prints rest
  end.

(** The number of lines written and not yet flushed after the events
    [evs], when [k] lines were pending before: a flush empties the
    buffer, and so does closing the file; a file just opened has nothing
    pending. *)
Fixpoint pending_after (evs : list event) (k : nat) : nat :=
  match evs with
  | [] => k
  | Write _ :: rest => pending_after rest (S k)
  | (Flush | Close | OpenW _ | OpenA _) :: rest => pending_after rest O
  | (Print _ | Sleep _) :: rest => pending_after rest k
  end.

Definition unflushed (evs : list event) : nat := pending_after evs O.


(** The number of occurrences of the character [c] in [s]. *)
Fixpoint count_char (c : ascii) (s : string) : nat :=
  match s with
  | EmptyString => O
  | String c' rest => ((if Ascii.eqb c c' then 1 else 0) + count_char c rest)%nat
  end.

(** ** Fixed-point interval arithmetic

    Used only to bound the fractional power at one concrete point: a
    number [u] stands for [u / d], and products are rounded down or up. *)

Definition fx_mul_dn (d u v : Z) : Z := (u * v / d)%Z.

Definition fx_mul_up (d u v : Z) : Z := (u * v / d + 1)%Z.

Fixpoint fx_pow_dn (d u : Z) (n : positive) : Z :=
  match n with
  | xH => u
  | xO m => let w := fx_pow_dn d u m in fx_mul_dn d w w
  | xI m => let w := fx_pow_dn d u m in fx_mul_dn d u (fx_mul_dn d w w)
  end.

Fixpoint fx_pow_up (d u : Z) (n : positive) : Z :=
  match n with
  | xH => u
  | xO m => let w := fx_pow_up d u m in fx_mul_up d w w
  | xI m => let w := fx_pow_up d u m in fx_mul_up d u (fx_mul_up d w w)
  end.

(** The scale of the fixed-point numbers: [2 ^ 64]. *)
Definition fx_scale : Z := 18446744073709551616%Z.

(** * Properties *)

(** ** Basic facts about the Python operations *)

Lemma py_div_ok (x y : R) : y <> 0 -> py_div x y = Ok (x / y).
Proof.
  intros Hy. unfold py_div. destruct (Req_dec_T y 0) as [E | _]; [contradiction | reflexivity].
Qed.

Lemma py_div_zero (x : R) : py_div x 0 = Raise ZeroDivisionError.
Proof.
  unfold py_div. destruct (Req_dec_T 0 0) as [_ | N]; [reflexivity | now elim N].
Qed.

Lemma py_pow_pos (x y : R) : 0 < x -> py_pow x y = Ok (Rpower x y).
Proof.
  intros Hx. unfold py_pow.
  destruct (Req_dec_T x 0) as [E | _]; [lra |].
  destruct (Rlt_dec x 0) as [L | _]; [lra | reflexivity].
Qed.

Lemma py_pow_zero (y : R) : 0 < y -> py_pow 0 y = Ok 0.
Proof.
  intros Hy. unfold py_pow.
  destruct (Req_dec_T 0 0) as [_ | N]; [| now elim N].
  destruct (Rlt_dec y 0) as [L | _]; [lra |].
  destruct (Req_dec_T y 0) as [E | _]; [lra | reflexivity].
Qed.


Lemma math_sqrt_ok (x : R) : 0 <= x -> math.sqrt x = Ok (sqrt x).
Proof.
  intros Hx. unfold math.sqrt. destruct (Rlt_dec x 0) as [L | _]; [lra | reflexivity].
Qed.

Lemma sum_squares_nonneg (a b : R) : 0 <= a * a + b * b.
Proof. nra. Qed.

Lemma sum_squares3_nonneg (a b c : R) : 0 <= a * a + b * b + c * c.
Proof. nra. Qed.


(** ** The altitude expression *)

Lemma alt_m_pos (p p0 : R) :
  0 < p0 -> 0 < p ->
  alt_m p p0 = Ok (44330 * (1 - Rpower (p / p0) (1 / 5.255))).
Proof.
  intros Hp0 Hp. unfold alt_m.
  rewrite (py_div_ok p p0) by lra. cbn [bind].
  rewrite (py_div_ok 1 5.255) by lra. cbn [bind].
  rewrite py_pow_pos by (apply Rdiv_lt_0_compat; assumption).
  reflexivity.
Qed.

Lemma alt_m_same (p : R) : p <> 0 -> alt_m p p = Ok 0.
Proof.
  intros Hp. unfold alt_m.
  rewrite (py_div_ok p p) by assumption. cbn [bind].
  rewrite (py_div_ok 1 5.255) by lra. cbn [bind].
  replace (p / p) with 1 by (field; assumption).
  rewrite py_pow_pos by lra. cbn [bind].
  f_equal.
  unfold Rpower. rewrite ln_1, Rmult_0_r, exp_0. ring.
Qed.

(** *** Bounding a fractional power by integer powers *)

Lemma Rpower_gt_0 (x y : R) : 0 < Rpower x y.
Proof. unfold Rpower. apply exp_pos. Qed.

Lemma Rpower_root_pow (x : R) (n m : nat) :
  0 < x -> (0 < m)%nat -> Rpower x (INR n / INR m) ^ m = x ^ n.
Proof.
  intros Hx Hm.
  rewrite <- Rpower_pow by apply Rpower_gt_0.
  rewrite Rpower_mult.
  replace (INR n / INR m * INR m) with (INR n)
    by (field; apply not_0_INR; lia).
  apply Rpower_pow. assumption.
Qed.

Lemma Rpower_root_lower (x a : R) (n m : nat) :
  0 < x -> (0 < m)%nat -> 0 <= a ->
  a ^ m < x ^ n -> a < Rpower x (INR n / INR m).
Proof.
  intros Hx Hm Ha Hlt.
  destruct (Rlt_le_dec a (Rpower x (INR n / INR m))) as [L | G]; [assumption |].
  exfalso.
  assert (Hinc : Rpower x (INR n / INR m) ^ m <= a ^ m).
  { apply pow_incr. split; [left; apply Rpower_gt_0 | assumption]. }
  rewrite Rpower_root_pow in Hinc by assumption. lra.
Qed.

Lemma Rpower_root_upper (x b : R) (n m : nat) :
  0 < x -> (0 < m)%nat -> 0 <= b ->
  x ^ n < b ^ m -> Rpower x (INR n / INR m) < b.
Proof.
  intros Hx Hm Hb Hlt.
  destruct (Rlt_le_dec (Rpower x (INR n / INR m)) b) as [L | G]; [assumption |].
  exfalso.
  assert (Hinc : b ^ m <= Rpower x (INR n / INR m) ^ m).
  { apply pow_incr. split; assumption. }
  rewrite Rpower_root_pow in Hinc by assumption. lra.
Qed.

Section FixedPoint.

Variable d : Z.
Hypothesis d_pos : (0 < d)%Z.

Let D := IZR d.

Lemma fx_scale_pos : 0 < D.
Proof. unfold D. apply IZR_lt in d_pos. exact d_pos. Qed.

Lemma fx_floor (n : Z) : IZR (n / d) * D <= IZR n < (IZR (n / d) + 1) * D.
Proof.
  unfold D. rewrite <- plus_IZR, <- !mult_IZR. split.
  - apply IZR_le. rewrite Z.mul_comm. apply Z.mul_div_le. assumption.
  - apply IZR_lt. rewrite Z.mul_comm.
    replace (n / d + 1)%Z with (Z.succ (n / d)) by lia.
    apply Z.mul_succ_div_gt. assumption.
Qed.

Lemma fx_mul_dn_sound (u v : Z) (a b : R) :
  (0 <= u)%Z -> (0 <= v)%Z -> IZR u / D <= a -> IZR v / D <= b ->
  (0 <= fx_mul_dn d u v)%Z /\ IZR (fx_mul_dn d u v) / D <= a * b.
Proof.
  intros Hu Hv Ha Hb. pose proof fx_scale_pos as HD.
  unfold fx_mul_dn. split.
  - apply Z.div_pos; [apply Z.mul_nonneg_nonneg |]; assumption.
  - pose proof (fx_floor (u * v)) as [Hfl _]. rewrite mult_IZR in Hfl.
    assert (Hu' : 0 <= IZR u / D).
    { apply Rmult_le_pos; [apply (IZR_le 0); assumption | left; apply Rinv_0_lt_compat; assumption]. }
    assert (Hv' : 0 <= IZR v / D).
    { apply Rmult_le_pos; [apply (IZR_le 0); assumption | left; apply Rinv_0_lt_compat; assumption]. }
    apply Rle_trans with (IZR u / D * (IZR v / D)).
    + apply Rmult_le_reg_r with (r := D); [assumption |].
      replace (IZR (u * v / d) / D * D) with (IZR (u * v / d)) by (field; lra).
      apply Rmult_le_reg_r with (r := D); [assumption |].
      replace (IZR u / D * (IZR v / D) * D * D) with (IZR u * IZR v) by (field; lra).
      exact Hfl.
    + apply Rmult_le_compat; assumption.
Qed.

Lemma fx_mul_up_sound (u v : Z) (a b : R) :
  0 <= a <= IZR u / D -> 0 <= b <= IZR v / D ->
  0 <= a * b <= IZR (fx_mul_up d u v) / D.
Proof.
  intros [Ha0 Ha] [Hb0 Hb]. pose proof fx_scale_pos as HD.
  unfold fx_mul_up. split; [apply Rmult_le_pos; assumption |].
  pose proof (fx_floor (u * v)) as [_ Hfl]. rewrite mult_IZR in Hfl.
  apply Rle_trans with (IZR u / D * (IZR v / D)).
  - apply Rmult_le_compat; assumption.
  - rewrite plus_IZR.
    apply Rmult_le_reg_r with (r := D); [assumption |].
    replace ((IZR (u * v / d) + 1) / D * D) with (IZR (u * v / d) + 1) by (field; lra).
    apply Rmult_le_reg_r with (r := D); [assumption |].
    replace (IZR u / D * (IZR v / D) * D * D) with (IZR u * IZR v) by (field; lra).
    left. exact Hfl.
Qed.

Lemma pow_double (r : R) (m : nat) : r ^ (2 * m) = r ^ m * r ^ m.
Proof. replace (2 * m)%nat with (m + m)%nat by lia. apply pow_add. Qed.

Lemma fx_pow_dn_sound (u : Z) (r : R) :
  (0 <= u)%Z -> IZR u / D <= r ->
  forall n,
    (0 <= fx_pow_dn d u n)%Z /\ IZR (fx_pow_dn d u n) / D <= r ^ Pos.to_nat n.
Proof.
  intros Hu Hr. induction n as [m [IH0 IH] | m [IH0 IH] |]; cbn [fx_pow_dn].
  - rewrite Pos2Nat.inj_xI. rewrite <- tech_pow_Rmult, pow_double.
    destruct (fx_mul_dn_sound _ _ _ _ IH0 IH0 IH IH) as [Hw0 Hw].
    apply fx_mul_dn_sound; assumption.
  - rewrite Pos2Nat.inj_xO, pow_double.
    apply fx_mul_dn_sound; assumption.
  - split; [assumption |]. rewrite Pos2Nat.inj_1, pow_1. assumption.
Qed.

Lemma fx_pow_up_sound (u : Z) (r : R) :
  0 <= r <= IZR u / D ->
  forall n, 0 <= r ^ Pos.to_nat n <= IZR (fx_pow_up d u n) / D.
Proof.
  intros Hr. induction n as [m IH | m IH |]; cbn [fx_pow_up].
  - rewrite Pos2Nat.inj_xI. rewrite <- tech_pow_Rmult, pow_double.
    apply fx_mul_up_sound; [assumption |].
    apply fx_mul_up_sound; assumption.
  - rewrite Pos2Nat.inj_xO, pow_double.
    apply fx_mul_up_sound; assumption.
  - rewrite Pos2Nat.inj_1, pow_1. assumption.
Qed.

(** Comparison of two powers, decided on their fixed-point bounds. *)
Lemma fx_pow_lt (ua lx : Z) (a x : R) (m n : positive) :
  0 <= a <= IZR ua / D ->
  (0 <= lx)%Z -> IZR lx / D <= x ->
  (fx_pow_up d ua m <? fx_pow_dn d lx n)%Z = true ->
  a ^ Pos.to_nat m < x ^ Pos.to_nat n.
Proof.
  intros Ha Hlx Hx Hlt. apply Z.ltb_lt, IZR_lt in Hlt.
  pose proof fx_scale_pos as HD.
  destruct (fx_pow_up_sound ua a Ha m) as [_ Hup].
  destruct (fx_pow_dn_sound lx x Hlx Hx n) as [_ Hdn].
  apply Rle_lt_trans with (1 := Hup).
  apply Rlt_le_trans with (2 := Hdn).
  apply Rmult_lt_compat_r; [apply Rinv_0_lt_compat; assumption | assumption].
Qed.

End FixedPoint.

(** A fraction of integers against a fixed-point number, decided on
    integers. *)
Lemma fraction_le_fx (a b u d : Z) :
  (0 < b)%Z -> (0 < d)%Z -> (a * d <=? u * b)%Z = true ->
  IZR a / IZR b <= IZR u / IZR d.
Proof.
  intros Hb Hd Hle. apply Z.leb_le, IZR_le in Hle. rewrite !mult_IZR in Hle.
  apply IZR_lt in Hb, Hd.
  apply Rmult_le_reg_r with (r := IZR b * IZR d).
  - apply Rmult_lt_0_compat; assumption.
  - replace (IZR a / IZR b * (IZR b * IZR d)) with (IZR a * IZR d) by (field; lra).
    replace (IZR u / IZR d * (IZR b * IZR d)) with (IZR u * IZR b) by (field; lra).
    exact Hle.
Qed.

Lemma fx_le_fraction (a b u d : Z) :
  (0 < b)%Z -> (0 < d)%Z -> (u * b <=? a * d)%Z = true ->
  IZR u / IZR d <= IZR a / IZR b.
Proof.
  intros Hb Hd Hle. apply fraction_le_fx; try assumption.
Qed.

(** The value the expression has at the spec's regression point lies
    between two decimals. *)
Lemma regression_power_bounds :
  0.977697 < Rpower (900 / 1013.25) (1 / 5.255) < 0.977699.
Proof.
  replace (900 / 1013.25) with (IZR 1200 / IZR 1351) by lra.
  replace (1 / 5.255) with (INR 200 / INR 1051) by (simpl; lra).
  assert (Hx : 0 < IZR 1200 / IZR 1351) by lra.
  split.
  - replace 0.977697 with (IZR 977697 / IZR 1000000) by lra.
    apply Rpower_root_lower; [assumption | lia | lra |].
    change 1051%nat with (Pos.to_nat 1051). change 200%nat with (Pos.to_nat 200).
    apply (fx_pow_lt fx_scale eq_refl
             (977697 * fx_scale / 1000000 + 1) (1200 * fx_scale / 1351)).
    + split; [lra |]. apply fraction_le_fx; reflexivity.
    + discriminate.
    + apply fx_le_fraction; reflexivity.
    + reflexivity.
  - replace 0.977699 with (IZR 977699 / IZR 1000000) by lra.
    apply Rpower_root_upper; [assumption | lia | lra |].
    change 1051%nat with (Pos.to_nat 1051). change 200%nat with (Pos.to_nat 200).
    apply (fx_pow_lt fx_scale eq_refl
             (1200 * fx_scale / 1351 + 1) (977699 * fx_scale / 1000000)).
    + split; [lra |]. apply fraction_le_fx; reflexivity.
    + discriminate.
    + apply fx_le_fraction; reflexivity.
    + reflexivity.
Qed.

Lemma alt_m_regression_bounds :
  exists v, alt_m 900 1013.25 = Ok v /\ 988.6 < v < 988.7.
Proof.
  exists (44330 * (1 - Rpower (900 / 1013.25) (1 / 5.255))). split.
  - apply alt_m_pos; lra.
  - pose proof regression_power_bounds as [Hlo Hhi]. lra.
Qed.

Lemma alt_m_zero_pressure (p0 : R) : p0 <> 0 -> alt_m 0 p0 = Ok 44330.
Proof.
  intros Hp0. unfold alt_m.
  rewrite (py_div_ok 0 p0) by assumption. cbn [bind].
  rewrite (py_div_ok 1 5.255) by lra. cbn [bind].
  replace (0 / p0) with 0 by (field; assumption).
  rewrite py_pow_zero by lra. cbn [bind]. f_equal. ring.
Qed.


Lemma alt_m_zero_baseline (p : R) : alt_m p 0 = Raise ZeroDivisionError.
Proof. unfold alt_m. rewrite py_div_zero. reflexivity. Qed.

(** The expression has a value exactly when the baseline is not zero and
    the pressure ratio is not negative. *)
Lemma alt_m_defined (p p0 : R) :
  p0 <> 0 -> 0 <= p / p0 -> exists v, alt_m p p0 = Ok v.
Proof.
  intros Hp0 [Hpos | Hzero].
  - unfold alt_m.
    rewrite (py_div_ok p p0) by assumption. cbn [bind].
    rewrite (py_div_ok 1 5.255) by lra. cbn [bind].
    rewrite py_pow_pos by assumption. cbn [bind]. eexists. reflexivity.
  - assert (p = 0).
    { apply (Rmult_eq_compat_r p0) in Hzero.
      unfold Rdiv in Hzero. rewrite Rmult_assoc, Rinv_l in Hzero by assumption. lra. }
    subst p. exists 44330. apply alt_m_zero_pressure. assumption.
Qed.

(** ** The tilt estimate and the filter *)

Lemma accel_angles_deg_value (ax ay az : R) :
  accel_angles_deg ax ay az
  = Ok (math.degrees (math.atan2 ay az),
        math.degrees (math.atan2 (- ax) (sqrt (ay * ay + az * az)))).
Proof.
  unfold accel_angles_deg.
  rewrite math_sqrt_ok by apply sum_squares_nonneg. reflexivity.
Qed.

Lemma atan2_zero_right (x : R) : 0 < x -> math.atan2 0 x = 0.
Proof.
  intros Hx. unfold math.atan2.
  destruct (Rlt_dec 0 x) as [_ | N]; [| contradiction].
  replace (0 / x) with 0 by (field; lra). apply atan_0.
Qed.

Lemma degrees_0 : math.degrees 0 = 0.
Proof. unfold math.degrees. apply Rmult_0_l. Qed.

Lemma accel_angles_deg_level (g : R) : 0 < g -> accel_angles_deg 0 0 g = Ok (0, 0).
Proof.
  intros Hg. rewrite accel_angles_deg_value.
  rewrite atan2_zero_right by assumption.
  replace (0 * 0 + g * g) with (g * g) by ring.
  rewrite sqrt_square by lra. rewrite Ropp_0.
  rewrite atan2_zero_right by assumption.
  rewrite degrees_0. reflexivity.
Qed.

Lemma filter_update_value (roll pitch ax ay az gx gy gz dt : R) :
  filter_update roll pitch ax ay az gx gy gz dt
  = Ok (alpha * (roll + gx * dt)
          + (1 - alpha) * math.degrees (math.atan2 ay az),
        alpha * (pitch + gy * dt)
          + (1 - alpha)
            * math.degrees (math.atan2 (- ax) (sqrt (ay * ay + az * az)))).
Proof.
  unfold filter_update. rewrite accel_angles_deg_value. reflexivity.
Qed.

Lemma accel_magnitude_g_value (ax ay az : R) :
  accel_magnitude_g ax ay az = Ok (sqrt (ax * ax + ay * ay + az * az) / 9.80665).
Proof.
  unfold accel_magnitude_g.
  rewrite math_sqrt_ok by apply sum_squares3_nonneg. cbn [bind].
  apply py_div_ok. lra.
Qed.

(** ** The loop body *)

(** The shape of a completed iteration. *)
Lemma loop_body_inv (s : State) (i : Reading) (s' : State) (evs : list event) :
  loop_body s i = Ok (s', evs) ->
  exists alt g ax ay az gx gy gz,
    acceleration i = (ax, ay, az) /\ gyro i = (gx, gy, gz)
    /\ alt_m (pressure i) (p0 s) = Ok alt
    /\ filter_update (roll s) (pitch s) ax ay az gx gy gz (now i - last_t s)
       = Ok (roll s', pitch s')
    /\ accel_magnitude_g ax ay az = Ok g
    /\ p0 s' = p0 s
    /\ last_t s' = now i
    /\ line_count s' = (line_count s + 1)%Z
    /\ evs = iteration_events s i alt g (roll s') (pitch s').
Proof.
  unfold loop_body, iteration_events.
  destruct (acceleration i) as [[ax ay] az].
  destruct (gyro i) as [[gx gy] gz].
  destruct (alt_m (pressure i) (p0 s)) as [alt | e |]; cbn [bind]; [| discriminate | discriminate].
  rewrite filter_update_value. cbn [bind].
  rewrite accel_magnitude_g_value. cbn [bind].
  intros H. injection H as Hs Hevs. subst s' evs. cbn [p0 roll pitch last_t line_count].
  exists alt, (sqrt (ax * ax + ay * ay + az * az) / 9.80665), ax, ay, az, gx, gy, gz.
  repeat split;
    try reflexivity;
    try apply filter_update_value;
    try apply accel_magnitude_g_value.
  destruct (Rle_dec 1 (now i - last_status s)); reflexivity.
Qed.

(** An iteration completes exactly when the altitude expression has a
    value: nothing else in the body can raise. *)
Lemma loop_body_defined (s : State) (i : Reading) (alt : R) :
  alt_m (pressure i) (p0 s) = Ok alt ->
  exists s' evs, loop_body s i = Ok (s', evs).
Proof.
  intros Halt. unfold loop_body.
  destruct (acceleration i) as [[ax ay] az].
  destruct (gyro i) as [[gx gy] gz].
  rewrite Halt. cbn [bind].
  rewrite filter_update_value. cbn [bind].
  rewrite accel_magnitude_g_value. cbn [bind].
  eexists. eexists. reflexivity.
Qed.

Lemma loop_body_raises (s : State) (i : Reading) (e : exn) :
  alt_m (pressure i) (p0 s) = Raise e -> loop_body s i = Raise e.
Proof.
  intros Halt. unfold loop_body.
  destruct (acceleration i) as [[ax ay] az].
  destruct (gyro i) as [[gx gy] gz].
  rewrite Halt. reflexivity.
Qed.

Lemma startup_value (csv_path : string) (boot : Reading) :
  exists s evs,
    startup csv_path boot = Ok (s, evs)
    /\ p0 s = pressure boot
    /\ line_count s = 0%Z
    /\ last_t s = now boot
    /\ accel_angles_deg (fst (fst (acceleration boot))) (snd (fst (acceleration boot)))
         (snd (acceleration boot)) = Ok (roll s, pitch s)
    /\ evs = [OpenW csv_path; Write csv_header; Close;
              Print ("Logging to: " ++ csv_path)%string; OpenA csv_path].
Proof.
  unfold startup.
  destruct (acceleration boot) as [[ax ay] az]. cbn [fst snd].
  rewrite accel_angles_deg_value. cbn [bind].
  eexists. eexists. repeat split; reflexivity.
Qed.

Lemma iterate_cons_inv (s : State) (i : Reading) (rest : list Reading)
      (s' : State) (evs : list event) :
  iterate s (i :: rest) = Ok (s', evs) ->
  exists s1 evs1 evs2,
    loop_body s i = Ok (s1, evs1)
    /\ iterate s1 rest = Ok (s', evs2)
    /\ evs = evs1 ++ evs2.
Proof.
  cbn [iterate].
  destruct (loop_body s i) as [[s1 evs1] | e |] eqn:H1; cbn [bind]; [| discriminate | discriminate].
  destruct (iterate s1 rest) as [[s2 evs2] | e |] eqn:H2; cbn [bind]; [| discriminate | discriminate].
  intros H. injection H as Hs Hevs. subst.
  exists s1, evs1, evs2. auto.
Qed.

Lemma script_inv (csv_path : string) (boot : Reading) (readings : list Reading)
      (s : State) (evs : list event) :
  script csv_path boot readings = Ok (s, evs) ->
  exists s0 evs0 evs1,
    startup csv_path boot = Ok (s0, evs0)
    /\ iterate s0 readings = Ok (s, evs1)
    /\ evs = evs0 ++ evs1.
Proof.
  unfold script.
  destruct (startup csv_path boot) as [[s0 evs0] | e |] eqn:H0; cbn [bind]; [| discriminate | discriminate].
  destruct (iterate s0 readings) as [[s1 evs1] | e |] eqn:H1; cbn [bind]; [| discriminate | discriminate].
  intros H. injection H as Hs Hevs. subst.
  exists s0, evs0, evs1. auto.
Qed.

Lemma iterate_p0 (readings : list Reading) :
  forall s s' evs, iterate s readings = Ok (s', evs) -> p0 s' = p0 s.
Proof.
  induction readings as [| i rest IH]; intros s s' evs H.
  - cbn in H. injection H as Hs _. subst. reflexivity.
  - apply iterate_cons_inv in H as (s1 & evs1 & evs2 & H1 & H2 & _).
    apply IH in H2. rewrite H2.
    apply loop_body_inv in H1 as (? & ? & ? & ? & ? & ? & ? & ? & H1).
    tauto.
Qed.

(** The loop keeps running as long as every pressure ratio is defined. *)
Lemma iterate_defined (readings : list Reading) :
  forall s,
    p0 s <> 0 ->
    Forall (fun i => 0 <= pressure i / p0 s) readings ->
    exists s' evs, iterate s readings = Ok (s', evs).
Proof.
  induction readings as [| i rest IH]; intros s Hp0 Hall.
  - exists s, []. reflexivity.
  - inversion Hall as [| ? ? Hi Hrest]; subst.
    destruct (alt_m_defined (pressure i) (p0 s) Hp0 Hi) as [alt Halt].
    destruct (loop_body_defined s i alt Halt) as (s1 & evs1 & H1).
    assert (Hsame : p0 s1 = p0 s).
    { apply loop_body_inv in H1 as (? & ? & ? & ? & ? & ? & ? & ? & H1). tauto. }
    destruct (IH s1) as (s2 & evs2 & H2).
    + rewrite Hsame. assumption.
    + rewrite Hsame. assumption.
    + exists s2, (evs1 ++ evs2). cbn [iterate]. rewrite H1. cbn [bind].
      rewrite H2. reflexivity.
Qed.

Lemma script_defined (csv_path : string) (boot : Reading) (readings : list Reading) :
  pressure boot <> 0 ->
  Forall (fun i => 0 <= pressure i / pressure boot) readings ->
  exists s evs, script csv_path boot readings = Ok (s, evs).
Proof.
  intros Hp0 Hall.
  destruct (startup_value csv_path boot) as (s0 & evs0 & H0 & Hp & _).
  destruct (iterate_defined readings s0) as (s & evs & H).
  - rewrite Hp. assumption.
  - rewrite Hp. assumption.
  - exists s, (evs0 ++ evs). unfold script. rewrite H0. cbn [bind].
    rewrite H. reflexivity.
Qed.

(** ** The shape of formatted numbers *)

Open Scope string_scope.

Lemma all_digits_app (s t : string) :
  all_digits (s ++ t) = all_digits s && all_digits t.
Proof.
  induction s as [| c s IH]; cbn; [reflexivity |].
  rewrite IH. apply andb_assoc.
Qed.

Lemma length_app (s t : string) :
  String.length (s ++ t) = (String.length s + String.length t)%nat.
Proof.
  induction s as [| c s IH]; cbn; [reflexivity | now rewrite IH].
Qed.

Lemma digit_is_digit (n : Z) : is_digit (digit n) = true.
Proof.
  unfold is_digit, digit.
  assert (H : (0 <= n mod 10 < 10)%Z) by (apply Z.mod_pos_bound; lia).
  rewrite nat_ascii_embedding by lia.
  apply andb_true_iff. split; apply Nat.leb_le; lia.
Qed.

Lemma fixed_digits_all (d : nat) :
  forall n, all_digits (fixed_digits d n) = true.
Proof.
  induction d as [| d IH]; intros n; cbn [fixed_digits]; [reflexivity |].
  rewrite all_digits_app, IH. cbn [all_digits andb].
  rewrite digit_is_digit. reflexivity.
Qed.

Lemma fixed_digits_length (d : nat) :
  forall n, String.length (fixed_digits d n) = d.
Proof.
  induction d as [| d IH]; intros n; cbn [fixed_digits]; [reflexivity |].
  rewrite length_app, IH. cbn. lia.
Qed.

Lemma string_of_uint_digits (u : Decimal.uint) :
  all_digits (NilEmpty.string_of_uint u) = true.
Proof.
  induction u; cbn [NilEmpty.string_of_uint all_digits]; try reflexivity;
    rewrite IHu; reflexivity.
Qed.

Lemma string_of_uint_nonempty (u : Decimal.uint) :
  u <> Decimal.Nil -> NilEmpty.string_of_uint u <> "".
Proof.
  destruct u; cbn; intros H; try discriminate. now elim H.
Qed.

Lemma numeral_digits (n : Z) : all_digits (numeral n) = true.
Proof. apply string_of_uint_digits. Qed.

Lemma numeral_nonempty (n : Z) : numeral n <> "".
Proof.
  unfold numeral. apply string_of_uint_nonempty.
  destruct (Z.to_N n) as [| p]; cbn; [discriminate |].
  apply Unsigned.to_uint_nonnil.
Qed.

Lemma format_f_fixed_point (d : nat) (x : R) :
  d <> O -> fixed_point d (format_f d x).
Proof.
  intros Hd. unfold format_f.
  destruct d as [| d']; [now elim Hd |].
  set (n := round_half_even (Rabs x * 10 ^ S d')).
  exists (if Rlt_dec x 0 then "-" else ""),
         (numeral (n / 10 ^ Z.of_nat (S d'))),
         (fixed_digits (S d') n).
  split; [reflexivity |].
  split; [destruct (Rlt_dec x 0); auto |].
  split; [apply numeral_nonempty |].
  split; [apply numeral_digits |].
  split; [apply fixed_digits_all | apply fixed_digits_length].
Qed.

Lemma csv_row_data_line (alt g r p : R) : data_line (csv_row alt g r p).
Proof.
  exists (format_f 2 alt), (format_f 3 g), (format_f 2 r), (format_f 2 p).
  split; [reflexivity |].
  repeat split; apply format_f_fixed_point; discriminate.
Qed.

(** A fixed-point numeral starts with a minus sign or a digit. *)
Lemma fixed_point_head (d : nat) (s : string) :
  fixed_point d s ->
  exists c rest, s = String c rest /\ (c = "-"%char \/ is_digit c = true).
Proof.
  intros (sign & ip & fp & -> & Hsign & Hne & Hip & _).
  destruct Hsign as [-> | ->].
  - destruct ip as [| c ip']; [now elim Hne |].
    exists c. eexists. split; [reflexivity |].
    right. cbn in Hip. apply andb_true_iff in Hip. tauto.
  - exists "-"%char. eexists. split; [reflexivity | now left].
Qed.

Lemma data_line_not_header (l : string) : data_line l -> l <> csv_header.
Proof.
  intros (a & g & r & p & -> & Ha & _) Heq.
  apply fixed_point_head in Ha as (c & rest & -> & Hc).
  unfold csv_header in Heq. cbn in Heq. injection Heq as Hc' _. subst c.
  destruct Hc as [Hc | Hc]; discriminate.
Qed.

(** *** Rounding, on examples *)

Lemma Int_part_bounds (x : R) : IZR (Int_part x) <= x < IZR (Int_part x) + 1.
Proof. pose proof (base_Int_part x) as [H1 H2]. lra. Qed.

Lemma round_half_even_near (x : R) (z : Z) :
  Rabs (x - IZR z) < 1 / 2 -> round_half_even x = z.
Proof.
  intros Hnear. apply Rabs_def2 in Hnear as [Hhi Hlo].
  unfold round_half_even.
  pose proof (Int_part_bounds x) as [Hf1 Hf2].
  set (f := Int_part x) in *.
  assert (Hcases : f = z \/ f = (z - 1)%Z).
  { assert (IZR f < IZR (z + 1)) by (rewrite plus_IZR; lra).
    assert (IZR (z - 2) < IZR f) by (rewrite minus_IZR; lra).
    apply lt_IZR in H, H0. lia. }
  destruct Hcases as [-> | ->].
  - destruct (Rlt_dec (x - IZR z) (1 / 2)) as [_ | N]; [reflexivity | lra].
  - rewrite minus_IZR.
    destruct (Rlt_dec (x - (IZR z - 1)) (1 / 2)) as [L | _]; [lra |].
    destruct (Rlt_dec (1 / 2) (x - (IZR z - 1))) as [_ | N]; [lia | lra].
Qed.

Lemma round_half_even_tie (x : R) (z : Z) :
  x = IZR z + 1 / 2 ->
  round_half_even x = if Z.even z then z else (z + 1)%Z.
Proof.
  intros ->. unfold round_half_even.
  assert (Hf : Int_part (IZR z + 1 / 2) = z).
  { symmetry. apply Int_part_spec. lra. }
  rewrite Hf.
  destruct (Rlt_dec (IZR z + 1 / 2 - IZR z) (1 / 2)) as [L | _]; [lra |].
  destruct (Rlt_dec (1 / 2) (IZR z + 1 / 2 - IZR z)) as [L | _]; [lra |].
  reflexivity.
Qed.

Lemma format_f_value (d : nat) (x : R) (n : Z) :
  round_half_even (Rabs x * 10 ^ d) = n ->
  format_f d x
  = (if Rlt_dec x 0 then "-" else "")
    ++ numeral (n / 10 ^ Z.of_nat d)
    ++ (match d with O => "" | S _ => "." end)
    ++ fixed_digits d n.
Proof. intros <-. reflexivity. Qed.

Example format_f_zero : format_f 2 0 = "0.00".
Proof.
  rewrite (format_f_value 2 0 0).
  - destruct (Rlt_dec 0 0) as [L | _]; [lra | reflexivity].
  - apply round_half_even_near. rewrite Rabs_R0. simpl.
    rewrite Rmult_0_l, Rminus_diag. rewrite Rabs_R0. lra.
Qed.

Example format_f_one_g : format_f 3 1 = "1.000".
Proof.
  rewrite (format_f_value 3 1 1000).
  - destruct (Rlt_dec 1 0) as [L | _]; [lra | reflexivity].
  - apply round_half_even_near. rewrite Rabs_R1.
    replace (1 * 10 ^ 3 - 1000) with 0 by (simpl; lra).
    rewrite Rabs_R0. lra.
Qed.

Example format_f_regression : format_f 2 988.6465 = "988.65".
Proof.
  rewrite (format_f_value 2 988.6465 98865).
  - destruct (Rlt_dec 988.6465 0) as [L | _]; [lra | reflexivity].
  - apply round_half_even_near. rewrite (Rabs_pos_eq 988.6465) by lra.
    replace (988.6465 * 10 ^ 2 - 98865) with (-0.35) by (simpl; lra).
    rewrite Rabs_left by lra. lra.
Qed.

Example format_f_small_negative : format_f 2 (-0.004) = "-0.00".
Proof.
  rewrite (format_f_value 2 (-0.004) 0).
  - destruct (Rlt_dec (-0.004) 0) as [_ | N]; [reflexivity | lra].
  - apply round_half_even_near. rewrite (Rabs_left (-0.004)) by lra.
    replace (- -0.004 * 10 ^ 2 - 0) with 0.4 by (simpl; lra).
    rewrite Rabs_pos_eq by lra. lra.
Qed.

Example format_f_tie_to_even : format_f 1 0.25 = "0.2" /\ format_f 1 0.75 = "0.8".
Proof.
  split.
  - rewrite (format_f_value 1 0.25 2).
    + destruct (Rlt_dec 0.25 0) as [L | _]; [lra | reflexivity].
    + rewrite (round_half_even_tie _ 2); [reflexivity |].
      rewrite Rabs_pos_eq by lra. simpl. lra.
  - rewrite (format_f_value 1 0.75 8).
    + destruct (Rlt_dec 0.75 0) as [L | _]; [lra | reflexivity].
    + rewrite (round_half_even_tie _ 7); [reflexivity |].
      rewrite Rabs_pos_eq by lra. simpl. lra.
Qed.

Close Scope string_scope.

(** ** Traces *)

Lemma writes_app (a b : list event) : writes (a ++ b) = writes a ++ writes b.
Proof.
  induction a as [| ev a IH]; [reflexivity |].
  destruct ev; simpl; rewrite ?IH; reflexivity.
Qed.

Lemma flush_count_app (a b : list event) :
  flush_count (a ++ b) = (flush_count a + flush_count b)%nat.
Proof.
  induction a as [| ev a IH]; [reflexivity |].
  destruct ev; simpl; rewrite ?IH; reflexivity.
Qed.

Section OneIteration.

Variables (s : State) (i : Reading) (alt g r' p' : R).

Let evs := iteration_events s i alt g r' p'.

Lemma iteration_writes : writes evs = [csv_row alt g r' p'].
Proof.
  unfold evs, iteration_events.
  destruct ((line_count s + 1) mod flush_every =? 0)%Z;
    destruct (Rle_dec 1 (now i - last_status s)); reflexivity.
Qed.

Lemma iteration_flush_count :
  flush_count evs
  = if ((line_count s + 1) mod flush_every =? 0)%Z then 1%nat else 0%nat.
Proof.
  unfold evs, iteration_events.
  destruct ((line_count s + 1) mod flush_every =? 0)%Z;
    destruct (Rle_dec 1 (now i - last_status s)); reflexivity.
Qed.

Lemma iteration_flushes :
  In Flush evs <-> ((line_count s + 1) mod flush_every = 0)%Z.
Proof.
  unfold evs, iteration_events.
  destruct ((line_count s + 1) mod flush_every =? 0)%Z eqn:E.
  - apply Z.eqb_eq in E. split; [auto |]. intros _. cbn. auto.
  - apply Z.eqb_neq in E. split; [| contradiction].
    destruct (Rle_dec 1 (now i - last_status s)); cbn;
      intros H; repeat (destruct H as [H | H]; try discriminate); contradiction.
Qed.

End OneIteration.

(** The quotient by 25 grows by one exactly at the multiples of 25. *)
Lemma div_flush_every_step (c : Z) :
  (0 <= c)%Z ->
  ((c + 1) / flush_every
   = c / flush_every + (if (c + 1) mod flush_every =? 0 then 1 else 0))%Z.
Proof.
  intros Hc. unfold flush_every.
  destruct ((c + 1) mod 25 =? 0)%Z eqn:E.
  - apply Z.eqb_eq in E.
    pose proof (Z.div_mod (c + 1) 25 ltac:(lia)).
    pose proof (Z.div_mod c 25 ltac:(lia)).
    pose proof (Z.mod_pos_bound c 25 ltac:(lia)). lia.
  - apply Z.eqb_neq in E.
    pose proof (Z.div_mod (c + 1) 25 ltac:(lia)).
    pose proof (Z.div_mod c 25 ltac:(lia)).
    pose proof (Z.mod_pos_bound c 25 ltac:(lia)).
    pose proof (Z.mod_pos_bound (c + 1) 25 ltac:(lia)). lia.
Qed.

(** The counter and the flushes over a run of the loop. *)
Lemma iterate_counts (readings : list Reading) :
  forall s s' evs,
    iterate s readings = Ok (s', evs) ->
    (0 <= line_count s)%Z ->
    line_count s' = (line_count s + Z.of_nat (List.length readings))%Z
    /\ Z.of_nat (flush_count evs)
       = ((line_count s + Z.of_nat (List.length readings)) / flush_every
          - line_count s / flush_every)%Z.
Proof.
  induction readings as [| i rest IH]; intros s s' evs H Hc.
  - cbn in H. injection H as Hs Hevs. subst. cbn [List.length flush_count].
    rewrite Z.add_0_r. split; lia.
  - apply iterate_cons_inv in H as (s1 & evs1 & evs2 & H1 & H2 & ->).
    apply loop_body_inv in H1
      as (alt & g & ax & ay & az & gx & gy & gz & _ & _ & _ & _ & _ & _ & _ & Hlc & ->).
    apply IH in H2 as [Hlc' Hfl]; [| lia].
    rewrite flush_count_app, iteration_flush_count, Nat2Z.inj_add, Hfl, Hlc', Hlc.
    cbn [List.length]. rewrite Nat2Z.inj_succ.
    replace (line_count s + 1 + Z.of_nat (List.length rest))%Z
      with (line_count s + Z.succ (Z.of_nat (List.length rest)))%Z by lia.
    split; [reflexivity |].
    rewrite (div_flush_every_step (line_count s) Hc).
    destruct ((line_count s + 1) mod flush_every =? 0)%Z; lia.
Qed.

(** The lines a run of the loop writes: one data line per iteration. *)
Lemma iterate_writes (readings : list Reading) :
  forall s s' evs,
    iterate s readings = Ok (s', evs) ->
    List.length (writes evs) = List.length readings /\ Forall data_line (writes evs).
Proof.
  induction readings as [| i rest IH]; intros s s' evs H.
  - cbn in H. injection H as Hs Hevs. subst. cbn. split; [reflexivity | constructor].
  - apply iterate_cons_inv in H as (s1 & evs1 & evs2 & H1 & H2 & ->).
    apply loop_body_inv in H1
      as (alt & g & ax & ay & az & gx & gy & gz & _ & _ & _ & _ & _ & _ & _ & _ & ->).
    apply IH in H2 as [Hlen Hall].
    rewrite writes_app, iteration_writes. simpl. split.
    + now rewrite Hlen.
    + constructor; [apply csv_row_data_line | assumption].
Qed.

Lemma file_after_app (a b : list event) :
  forall content, file_after (a ++ b) content = file_after b (file_after a content).
Proof.
  induction a as [| ev a IH]; intros content; [reflexivity |].
  destruct ev; simpl; apply IH.
Qed.

Lemma file_after_iteration (s : State) (i : Reading) (alt g r' p' : R)
      (content : list string) :
  file_after (iteration_events s i alt g r' p') content
  = content ++ [csv_row alt g r' p'].
Proof.
  unfold iteration_events.
  destruct ((line_count s + 1) mod flush_every =? 0)%Z;
    destruct (Rle_dec 1 (now i - last_status s)); reflexivity.
Qed.

(** The loop only appends to the file. *)
Lemma iterate_file_after (readings : list Reading) :
  forall s s' evs content,
    iterate s readings = Ok (s', evs) ->
    file_after evs content = content ++ writes evs.
Proof.
  induction readings as [| i rest IH]; intros s s' evs content H.
  - cbn in H. injection H as Hs Hevs. subst. cbn. now rewrite app_nil_r.
  - apply iterate_cons_inv in H as (s1 & evs1 & evs2 & H1 & H2 & ->).
    apply loop_body_inv in H1
      as (alt & g & ax & ay & az & gx & gy & gz & _ & _ & _ & _ & _ & _ & _ & _ & ->).
    rewrite file_after_app, file_after_iteration, (IH _ _ _ _ H2).
    rewrite writes_app, iteration_writes, <- app_assoc. reflexivity.
Qed.

(** ** The whole script *)

Section Script.

Variables (csv_path : string) (boot : Reading) (readings : list Reading).
Variables (s : State) (evs : list event).
Hypothesis Hrun : script csv_path boot readings = Ok (s, evs).

Let N := List.length readings.

Lemma script_line_count : line_count s = Z.of_nat N.
Proof.
  apply script_inv in Hrun as (s0 & evs0 & evs1 & H0 & H1 & _).
  destruct (startup_value csv_path boot) as (s0' & evs0' & H0' & _ & Hlc & _).
  rewrite H0 in H0'. injection H0' as <- <-.
  apply iterate_counts in H1 as [Hc _]; [| lia].
  rewrite Hc, Hlc. reflexivity.
Qed.

Lemma script_flush_count : flush_count evs = (N / 25)%nat.
Proof.
  apply script_inv in Hrun as (s0 & evs0 & evs1 & H0 & H1 & ->).
  destruct (startup_value csv_path boot) as (s0' & evs0' & H0' & _ & Hlc & _ & _ & Hev).
  rewrite H0 in H0'. injection H0' as <- <-.
  apply iterate_counts in H1 as [_ Hf]; [| lia].
  rewrite flush_count_app. subst evs0. cbn [flush_count Nat.add].
  apply Nat2Z.inj. rewrite Hf, Hlc, Nat2Z.inj_div.
  unfold flush_every, N. rewrite Z.add_0_l, Z.sub_0_r. reflexivity.
Qed.

Lemma script_file_contents :
  exists rows,
    file_contents evs = csv_header :: rows
    /\ List.length rows = N
    /\ Forall data_line rows.
Proof.
  apply script_inv in Hrun as (s0 & evs0 & evs1 & H0 & H1 & ->).
  destruct (startup_value csv_path boot) as (s0' & evs0' & H0' & _ & _ & _ & _ & Hev).
  rewrite H0 in H0'. injection H0' as <- <-.
  pose proof (iterate_file_after _ _ _ _ [csv_header] H1) as Hfile.
  apply iterate_writes in H1 as [Hlen Hall].
  exists (writes evs1). unfold file_contents.
  rewrite file_after_app. subst evs0. simpl.
  rewrite Hfile. auto.
Qed.

Lemma script_creates_file :
  exists rest, evs = OpenW csv_path :: Write csv_header :: Close :: rest.
Proof.
  apply script_inv in Hrun as (s0 & evs0 & evs1 & H0 & H1 & ->).
  destruct (startup_value csv_path boot) as (s0' & evs0' & H0' & _ & _ & _ & _ & Hev).
  rewrite H0 in H0'. injection H0' as <- <-.
  subst evs0. eexists. reflexivity.
Qed.

End Script.

(** ** Formatted numbers read back *)

Open Scope string_scope.

Lemma digit_value_digit (n : Z) : digit_value (digit n) = Some (n mod 10)%Z.
Proof.
  unfold digit_value. rewrite digit_is_digit. unfold digit.
  assert (H : (0 <= n mod 10 < 10)%Z) by (apply Z.mod_pos_bound; lia).
  rewrite nat_ascii_embedding by lia. f_equal. lia.
Qed.

Lemma digits_value_app (s t : string) :
  forall acc,
    digits_value (s ++ t) acc
    = match digits_value s acc with
      | Some a => digits_value t a
      | None => None
      end.
Proof.
  induction s as [| c s IH]; intros acc; cbn [append digits_value]; [reflexivity |].
  destruct (digit_value c); [apply IH | reflexivity].
Qed.

Lemma digits_value_fixed (d : nat) :
  forall n acc,
    digits_value (fixed_digits d n) acc
    = Some (acc * 10 ^ Z.of_nat d + n mod 10 ^ Z.of_nat d)%Z.
Proof.
  induction d as [| d IH]; intros n acc.
  - cbn [fixed_digits digits_value]. f_equal.
    change (10 ^ Z.of_nat 0)%Z with 1%Z. rewrite Z.mod_1_r. lia.
  - cbn [fixed_digits]. rewrite digits_value_app, IH.
    cbn [digits_value]. rewrite digit_value_digit. f_equal.
    rewrite Nat2Z.inj_succ, Z.pow_succ_r by lia.
    rewrite (Z.rem_mul_r n 10 (10 ^ Z.of_nat d)) by lia. lia.
Qed.

Lemma digits_value_uint (u : Decimal.uint) :
  forall acc, digits_value (NilEmpty.string_of_uint u) acc = Some (uint_value u acc).
Proof.
  induction u; intros acc; cbn [NilEmpty.string_of_uint uint_value];
    [reflexivity | ..];
    cbn [digits_value]; (etransitivity; [| apply IHu]); reflexivity.
Qed.

Lemma uint_value_acc (u : Decimal.uint) :
  forall p, uint_value u (Z.pos p) = Z.pos (Pos.of_uint_acc u p).
Proof.
  induction u; intros p; cbn [uint_value Pos.of_uint_acc]; [reflexivity | ..];
    rewrite <- IHu; f_equal; lia.
Qed.

Lemma uint_value_of_uint (u : Decimal.uint) : uint_value u 0 = Z.of_N (N.of_uint u).
Proof.
  unfold N.of_uint.
  induction u; cbn [uint_value Pos.of_uint]; [reflexivity | exact IHu | ..];
    cbn [Z.of_N]; rewrite <- uint_value_acc; reflexivity.
Qed.

Lemma digits_value_numeral (q : Z) : (0 <= q)%Z -> digits_value (numeral q) 0 = Some q.
Proof.
  intros Hq. unfold numeral.
  rewrite digits_value_uint, uint_value_of_uint, DecimalN.Unsigned.of_to.
  f_equal. lia.
Qed.

Lemma round_half_even_error (y : R) : Rabs (IZR (round_half_even y) - y) <= / 2.
Proof.
  unfold round_half_even.
  pose proof (Int_part_bounds y) as [H1 H2].
  set (f := Int_part y) in *.
  destruct (Rlt_dec (y - IZR f) (1 / 2)) as [L | L].
  - apply Rabs_le. lra.
  - destruct (Rlt_dec (1 / 2) (y - IZR f)) as [G | G].
    + rewrite plus_IZR. apply Rabs_le. lra.
    + destruct (Z.even f); [| rewrite plus_IZR]; apply Rabs_le; lra.
Qed.

Lemma round_half_even_nonneg (y : R) : 0 <= y -> (0 <= round_half_even y)%Z.
Proof.
  intros Hy. unfold round_half_even.
  pose proof (Int_part_bounds y) as [H1 H2].
  set (f := Int_part y) in *.
  assert (Hf : (0 <= f)%Z).
  { assert (IZR (-1) < IZR f) by lra. apply lt_IZR in H. lia. }
  destruct (Rlt_dec (y - IZR f) (1 / 2)); [assumption |].
  destruct (Rlt_dec (1 / 2) (y - IZR f)); [lia |].
  destruct (Z.even f); lia.
Qed.

(** What [format_f] prints shows the value. *)
Lemma format_f_shows (d : nat) (x : R) : d <> O -> shows d x (format_f d x).
Proof.
  intros Hd. unfold format_f.
  destruct d as [| d']; [now elim Hd |].
  set (d := S d') in *.
  set (n := round_half_even (Rabs x * 10 ^ d)).
  assert (Hpow : 0 < 10 ^ d) by (apply pow_lt; lra).
  assert (Hn : (0 <= n)%Z).
  { apply round_half_even_nonneg. apply Rmult_le_pos; [apply Rabs_pos | lra]. }
  exists (if Rlt_dec x 0 then "-" else ""),
         (numeral (n / 10 ^ Z.of_nat d)), (fixed_digits d n), n.
  split; [reflexivity |].
  split; [destruct (Rlt_dec x 0); auto |].
  split; [intros Hx; destruct (Rlt_dec x 0); [reflexivity | lra] |].
  split; [intros Hx; destruct (Rlt_dec x 0); [lra | reflexivity] |].
  split; [apply numeral_nonempty |].
  split; [apply fixed_digits_length |].
  split.
  - rewrite digits_value_app, digits_value_numeral, digits_value_fixed.
    + f_equal. pose proof (Z.div_mod n (10 ^ Z.of_nat d)) as Hdm.
      assert (10 ^ Z.of_nat d <> 0)%Z by (apply Z.pow_nonzero; lia). lia.
    + apply Z.div_pos; [assumption | apply Z.pow_pos_nonneg; lia].
  - pose proof (round_half_even_error (Rabs x * 10 ^ d)) as Herr. fold n in Herr.
    replace (IZR n / 10 ^ d - Rabs x)
      with ((IZR n - Rabs x * 10 ^ d) * / 10 ^ d) by (field; lra).
    rewrite Rabs_mult, (Rabs_pos_eq (/ 10 ^ d))
      by (left; apply Rinv_0_lt_compat; assumption).
    apply Rmult_le_compat_r; [left; apply Rinv_0_lt_compat; assumption | exact Herr].
Qed.

Lemma csv_row_shows (alt g r p : R) : row_shows alt g r p (csv_row alt g r p).
Proof.
  exists (format_f 2 alt), (format_f 3 g), (format_f 2 r), (format_f 2 p).
  split; [reflexivity |].
  repeat split; apply format_f_shows; discriminate.
Qed.

Example format_f_44330 : format_f 2 44330 = "44330.00".
Proof.
  rewrite (format_f_value 2 44330 4433000).
  - destruct (Rlt_dec 44330 0) as [L | _]; [lra | reflexivity].
  - apply round_half_even_near. rewrite (Rabs_pos_eq 44330) by lra.
    replace (44330 * 10 ^ 2 - 4433000) with 0 by (simpl; lra).
    rewrite Rabs_R0. lra.
Qed.

Close Scope string_scope.

(** ** The loop on sample inputs *)

(** With a zero baseline startup has completed, and it is the first
    iteration that raises. *)
Lemma zero_baseline_raises_in_loop (s : State) (i : Reading) :
  p0 s = 0 -> loop_body s i = Raise ZeroDivisionError.
Proof.
  intros Hz. apply loop_body_raises. rewrite Hz. apply alt_m_zero_baseline.
Qed.

(** At rest, level and at the baseline pressure, an iteration logs
    [0.00,1.000,0.00,0.00] and leaves the angles at 0. *)
Example level_iteration_row (t : R) :
  exists s' evs,
    loop_body ground_state (level_reading t 1013.25) = Ok (s', evs)
    /\ writes evs = ["0.00,1.000,0.00,0.00" ++ LF]%string
    /\ roll s' = 0 /\ pitch s' = 0.
Proof.
  assert (Halt : alt_m 1013.25 1013.25 = Ok 0) by (apply alt_m_same; lra).
  destruct (loop_body_defined ground_state (level_reading t 1013.25) 0 Halt)
    as (s' & evs & H).
  exists s', evs. split; [exact H |].
  apply loop_body_inv in H
    as (alt & g & ax & ay & az & gx & gy & gz & Hacc & Hgyro & Halt' & Hf & Hg & _ & _ & _ & ->).
  cbn in Hacc, Hgyro, Halt'. injection Hacc as <- <- <-. injection Hgyro as <- <- <-.
  rewrite Halt in Halt'. injection Halt' as <-.
  unfold filter_update in Hf. rewrite accel_angles_deg_level in Hf by lra.
  cbn [bind roll pitch ground_state] in Hf. injection Hf as Hr Hp.
  assert (Hr0 : roll s' = 0) by (rewrite <- Hr; unfold alpha; lra).
  assert (Hp0 : pitch s' = 0) by (rewrite <- Hp; unfold alpha; lra).
  rewrite accel_magnitude_g_value in Hg. injection Hg as Hg.
  assert (Hg1 : g = 1).
  { rewrite <- Hg.
    replace (0 * 0 + 0 * 0 + 9.80665 * 9.80665) with (9.80665 * 9.80665) by ring.
    rewrite sqrt_square by lra. lra. }
  rewrite iteration_writes, Hr0, Hp0, Hg1.
  unfold csv_row. rewrite format_f_zero, format_f_one_g.
  repeat split.
Qed.

(** * The claims *)

(** ** C1: the altitude expression *)

(** C1, counterexample.  At [p0 = 1013.25] and [p = 900.0] the expression
    has a value, and that value is more than 0.5 m away from 1000.8 m. *)
Lemma alt_m_regression_far_from_1000_8 :
  exists v, alt_m 900 1013.25 = Ok v /\ ~ Rabs (v - 1000.8) <= 0.5.
Proof.
  destruct alt_m_regression_bounds as (v & Hv & Hlo & Hhi).
  exists v. split; [assumption |].
  rewrite Rabs_left by lra. lra.
Qed.

(** C1, amended.  For every pressure [p] and baseline [p0], both positive,
    the altitude expression returns
    [44330 * (1 - (p / p0) ^ (1 / 5.255))]; at [p = p0] it returns
    exactly 0; and at [p0 = 1013.25], [p = 900] it returns a value within
    0.5 m of 988.6 m. *)
Theorem alt_m_barometric (p p0 : R) :
  0 < p0 -> 0 < p ->
  alt_m p p0 = Ok (44330 * (1 - Rpower (p / p0) (1 / 5.255)))
  /\ alt_m p0 p0 = Ok 0
  /\ (exists v, alt_m 900 1013.25 = Ok v /\ Rabs (v - 988.6) <= 0.5).
Proof.
  intros Hp0 Hp. split; [| split].
  - apply alt_m_pos; assumption.
  - apply alt_m_same. lra.
  - destruct alt_m_regression_bounds as (v & Hv & Hlo & Hhi).
    exists v. split; [assumption |].
    apply Rabs_le. lra.
Qed.

Lemma alt_m_barometric_witness :
  alt_m 900 1013.25 = Ok (44330 * (1 - Rpower (900 / 1013.25) (1 / 5.255)))
  /\ alt_m 1013.25 1013.25 = Ok 0
  /\ (exists v, alt_m 900 1013.25 = Ok v /\ Rabs (v - 988.6) <= 0.5).
Proof. apply (alt_m_barometric 900 1013.25); lra. Defined.

(** ** C3, C4, C5, C7: the tilt estimate and the complementary filter *)

(** C3.  One filter update returns
    [roll = 0.98 * (prev_roll + gx * dt) + (1 - 0.98) * roll_acc] and
    [pitch = 0.98 * (prev_pitch + gy * dt) + (1 - 0.98) * pitch_acc],
    where [(roll_acc, pitch_acc)] is the accelerometer-only tilt estimate
    of [(ax, ay, az)]. *)
Theorem filter_update_blend (prev_roll prev_pitch ax ay az gx gy gz dt : R) :
  exists roll_acc pitch_acc,
    accel_angles_deg ax ay az = Ok (roll_acc, pitch_acc)
    /\ filter_update prev_roll prev_pitch ax ay az gx gy gz dt
       = Ok (0.98 * (prev_roll + gx * dt) + (1 - 0.98) * roll_acc,
             0.98 * (prev_pitch + gy * dt) + (1 - 0.98) * pitch_acc).
Proof.
  exists (math.degrees (math.atan2 ay az)),
         (math.degrees (math.atan2 (- ax) (sqrt (ay * ay + az * az)))).
  split.
  - apply accel_angles_deg_value.
  - apply filter_update_value.
Qed.

Section TiltOnFloats.

Import PrimFloat.




End TiltOnFloats.

(** C5, counterexample.  The ratio of the two blend weights is not nine
    eighths. *)
Lemma blend_weight_ratio_not_nine_eighths : alpha / (1 - alpha) <> 9 / 8.
Proof. unfold alpha. lra. Qed.

(** C5, amended.  In the filter update the weight of the gyro-integrated
    value is [alpha = 0.98] and the weight of the instantaneous
    accelerometer estimate is [1 - alpha]; their ratio is forty-nine to
    one. *)
Theorem blend_weight_ratio :
  alpha / (1 - alpha) = 49
  /\ forall prev_roll prev_pitch ax ay az gx gy gz dt,
       filter_update prev_roll prev_pitch ax ay az gx gy gz dt
       = Ok (alpha * (prev_roll + gx * dt)
               + (1 - alpha) * math.degrees (math.atan2 ay az),
             alpha * (prev_pitch + gy * dt)
               + (1 - alpha)
                 * math.degrees (math.atan2 (- ax) (sqrt (ay * ay + az * az)))).
Proof.
  split.
  - unfold alpha. lra.
  - intros. apply filter_update_value.
Qed.

(** C7, counterexample.  From the state [(roll, pitch) = (10, 0)], a level
    static input, no gyro rate and [dt = 0], the update returns
    [(9.8, 0)]: the state is changed. *)
Lemma filter_update_moves_state :
  filter_update 10 0 0 0 1 0 0 0 0 = Ok (9.8, 0)
  /\ filter_update 10 0 0 0 1 0 0 0 0 <> Ok (10, 0).
Proof.
  assert (H : filter_update 10 0 0 0 1 0 0 0 0 = Ok (9.8, 0)).
  { unfold filter_update. rewrite accel_angles_deg_level by lra. cbn [bind].
    unfold alpha. f_equal. f_equal; lra. }
  split; [exact H |].
  rewrite H. intros E. injection E as E. lra.
Qed.

(** C7, amended.  For every state [(roll, pitch)] and every static
    accelerometer input, the update with [gx = gy = 0] and [dt = 0]
    returns the blend of the state with the accelerometer-only tilt
    estimate, [0.98 * roll + (1 - 0.98) * roll_acc] and likewise for
    pitch; it does not, in general, leave the state unchanged. *)
Theorem filter_update_static (roll pitch ax ay az gz : R) :
  exists roll_acc pitch_acc,
    accel_angles_deg ax ay az = Ok (roll_acc, pitch_acc)
    /\ filter_update roll pitch ax ay az 0 0 gz 0
       = Ok (0.98 * roll + (1 - 0.98) * roll_acc,
             0.98 * pitch + (1 - 0.98) * pitch_acc).
Proof.
  eexists. eexists. split; [apply accel_angles_deg_value |].
  rewrite filter_update_value. unfold alpha. f_equal. f_equal; ring.
Qed.

(** ** C2, C8: degenerate pressures *)

Open Scope string_scope.

Lemma zero_pressure_row (s s' : State) (i : Reading) (evs : list event) :
  p0 s <> 0 -> pressure i = 0 ->
  loop_body s i = Ok (s', evs) ->
  exists g,
    writes evs
    = ["44330.00," ++ format_f 3 g ++ "," ++ format_f 2 (roll s') ++ ","
       ++ format_f 2 (pitch s') ++ LF].
Proof.
  intros Hp0 Hz H.
  apply loop_body_inv in H
    as (alt & g & ax & ay & az & gx & gy & gz & _ & _ & Halt & _ & _ & _ & _ & _ & ->).
  rewrite Hz, (alt_m_zero_pressure (p0 s) Hp0) in Halt. injection Halt as <-.
  exists g. rewrite iteration_writes. unfold csv_row.
  rewrite format_f_44330. reflexivity.
Qed.

(** C2, counterexample.  With the baseline 1013.25 hPa and a sample of
    pressure 0, the altitude expression returns 44330, the value of the
    formula, and the iteration logs it as the altitude [44330.00]: an
    ordinary number in an ordinary row, not a mark of an invalid
    reading. *)
Lemma zero_pressure_logs_44330 :
  alt_m 0 1013.25 = Ok 44330
  /\ exists s' evs g,
       loop_body ground_state (level_reading 0.05 0) = Ok (s', evs)
       /\ writes evs
          = ["44330.00," ++ format_f 3 g ++ "," ++ format_f 2 (roll s') ++ ","
             ++ format_f 2 (pitch s') ++ LF].
Proof.
  assert (Halt : alt_m 0 1013.25 = Ok 44330) by (apply alt_m_zero_pressure; lra).
  split; [exact Halt |].
  destruct (loop_body_defined ground_state (level_reading 0.05 0) 44330 Halt)
    as (s' & evs & H).
  destruct (zero_pressure_row ground_state s' (level_reading 0.05 0) evs) as [g Hg];
    [cbn; lra | reflexivity | exact H |].
  exists s', evs, g. auto.
Qed.

(** C2, amended.  The altitude conversion has no guard and no sentinel
    value.  For a sample with pressure 0 (the baseline not zero) nothing
    is raised: the expression returns 44330, the value of the formula,
    the iteration completes and logs it as the altitude [44330.00], and
    the loop goes on. *)
Theorem zero_pressure_unguarded (s : State) (i : Reading) :
  p0 s <> 0 -> pressure i = 0 ->
  alt_m (pressure i) (p0 s) = Ok 44330
  /\ exists s' evs g,
       loop_body s i = Ok (s', evs)
       /\ writes evs
          = ["44330.00," ++ format_f 3 g ++ "," ++ format_f 2 (roll s') ++ ","
             ++ format_f 2 (pitch s') ++ LF].
Proof.
  intros Hp0 Hz.
  assert (Halt : alt_m (pressure i) (p0 s) = Ok 44330)
    by (rewrite Hz; apply alt_m_zero_pressure; assumption).
  split; [exact Halt |].
  destruct (loop_body_defined s i 44330 Halt) as (s' & evs & H).
  destruct (zero_pressure_row s s' i evs Hp0 Hz H) as [g Hg].
  exists s', evs, g. auto.
Qed.

Lemma zero_pressure_unguarded_witness :
  alt_m 0 1013.25 = Ok 44330
  /\ exists s' evs g,
       loop_body ground_state (level_reading 0.05 0) = Ok (s', evs)
       /\ writes evs
          = ["44330.00," ++ format_f 3 g ++ "," ++ format_f 2 (roll s') ++ ","
             ++ format_f 2 (pitch s') ++ LF].
Proof.
  apply (zero_pressure_unguarded ground_state (level_reading 0.05 0)).
  - cbn. lra.
  - reflexivity.
Defined.

Close Scope string_scope.

(** C8, counterexample.  A boot reading of -1000 hPa is accepted: startup
    completes with [p0 = -1000], and the first iteration, on a sample of
    -900 hPa, completes and writes a line. *)
Lemma negative_baseline_enters_loop :
  exists s0 evs0 s1 evs1,
    startup "/logs/log_001.csv" (level_reading 0 (-1000)) = Ok (s0, evs0)
    /\ p0 s0 = -1000
    /\ loop_body s0 (level_reading 0.05 (-900)) = Ok (s1, evs1)
    /\ List.length (writes evs1) = 1%nat.
Proof.
  destruct (startup_value "/logs/log_001.csv" (level_reading 0 (-1000)))
    as (s0 & evs0 & H0 & Hp & _).
  cbn in Hp.
  destruct (alt_m_defined (-900) (p0 s0)) as [alt Halt].
  { rewrite Hp. lra. }
  { rewrite Hp. lra. }
  destruct (loop_body_defined s0 (level_reading 0.05 (-900)) alt Halt) as (s1 & evs1 & H1).
  exists s0, evs0, s1, evs1. repeat split; try assumption.
  apply loop_body_inv in H1
    as (? & ? & ? & ? & ? & ? & ? & ? & _ & _ & _ & _ & _ & _ & _ & _ & ->).
  rewrite iteration_writes. reflexivity.
Qed.

(** C8, amended.  Startup does not validate the captured baseline: for
    every first pressure reading, of any sign, it completes with [p0]
    equal to that reading; and [p0] is never mutated after capture: after
    any number of completed iterations it still is that reading. *)
Theorem baseline_unchecked_constant (csv_path : string) (boot : Reading) :
  exists s0 evs0,
    startup csv_path boot = Ok (s0, evs0)
    /\ p0 s0 = pressure boot
    /\ forall readings s evs,
         iterate s0 readings = Ok (s, evs) -> p0 s = pressure boot.
Proof.
  destruct (startup_value csv_path boot) as (s0 & evs0 & H0 & Hp & _).
  exists s0, evs0. repeat split; try assumption.
  intros readings s evs H. rewrite <- Hp. exact (iterate_p0 readings s0 s evs H).
Qed.

Lemma baseline_unchecked_constant_witness :
  exists s0 evs0 s evs,
    startup "/logs/log_001.csv" (level_reading 0 (-1000)) = Ok (s0, evs0)
    /\ iterate s0 [level_reading 0.05 (-900)] = Ok (s, evs)
    /\ p0 s = -1000.
Proof.
  destruct (baseline_unchecked_constant "/logs/log_001.csv" (level_reading 0 (-1000)))
    as (s0 & evs0 & H0 & Hp & Hconst).
  destruct (iterate_defined [level_reading 0.05 (-900)] s0) as (s & evs & H).
  - rewrite Hp. cbn. lra.
  - constructor; [rewrite Hp; cbn; lra | constructor].
  - exists s0, evs0, s, evs. repeat split; try assumption.
    exact (Hconst _ s evs H).
Defined.

(** ** C6: the flush schedule *)


(** C6.  After [N] loop iterations, each writing one record, the counter
    is [N] and exactly [floor(N / 25)] flush operations have occurred; the
    next iteration, number [N + 1], flushes exactly when [N + 1] is a
    multiple of 25: flushes occur on iterations 25, 50, 75, ..., and not
    on the first iterations. *)
Theorem flush_schedule (csv_path : string) (boot : Reading) (readings : list Reading)
        (s : State) (evs : list event) :
  script csv_path boot readings = Ok (s, evs) ->
  line_count s = Z.of_nat (List.length readings)
  /\ flush_count evs = (List.length readings / 25)%nat
  /\ forall i s' evs',
       loop_body s i = Ok (s', evs') ->
       (In Flush evs' <-> ((Z.of_nat (List.length readings) + 1) mod 25 = 0)%Z).
Proof.
  intros Hrun.
  pose proof (script_line_count _ _ _ _ _ Hrun) as Hlc.
  split; [exact Hlc |].
  split; [exact (script_flush_count _ _ _ _ _ Hrun) |].
  intros i s' evs' Hstep.
  apply loop_body_inv in Hstep
    as (? & ? & ? & ? & ? & ? & ? & ? & _ & _ & _ & _ & _ & _ & _ & _ & ->).
  rewrite iteration_flushes, Hlc. reflexivity.
Qed.

Lemma flush_schedule_witness :
  exists s evs,
    script "/logs/log_001.csv" (level_reading 0 1013.25)
           (repeat (level_reading 1 1013.25) 50) = Ok (s, evs)
    /\ line_count s = 50%Z
    /\ flush_count evs = 2%nat.
Proof.
  destruct (script_defined "/logs/log_001.csv" (level_reading 0 1013.25)
              (repeat (level_reading 1 1013.25) 50)) as (s & evs & H).
  - cbn. lra.
  - apply Forall_forall. intros i Hi. apply repeat_spec in Hi. subst i. cbn. lra.
  - exists s, evs.
    destruct (flush_schedule _ _ _ s evs H) as (Hlc & Hfl & _).
    split; [exact H |]. split; [exact Hlc | exact Hfl].
Defined.

(** ** C9: the layout of the log file *)

Open Scope string_scope.

Section RowOnFloats.

Import PrimFloat.
#[local] Set Warnings "-inexact-float".

(** C9, counterexample.  On floats, an acceleration of [1e200] along one
    axis makes the squares overflow: the g-force is infinite and is
    written [inf], which is no numeral with 3 decimals. *)
Lemma infinite_g_force_field :
  b64.accel_g 1e200 0 0 = PrimFloat.infinity
  /\ b64.format_nonfinite (b64.accel_g 1e200 0 0) = Some "inf"%string
  /\ ~ fixed_point 3 "inf"%string.
Proof.
  split; [reflexivity |]. split; [reflexivity |].
  intros H. apply fixed_point_head in H as (c & rest & Heq & Hc).
  injection Heq as <- _. destruct Hc as [Hc | Hc]; discriminate.
Qed.

End RowOnFloats.

(** C9, amended.  The file is created with the header line
    [alt_m,accel_g,roll_deg,pitch_deg], written once; after it, every loop
    iteration has written exactly one data line, and an iteration whose
    values are finite numbers writes the line
    [{alt_m:.2f},{accel_g:.3f},{roll:.2f},{pitch:.2f}]: the altitude and
    the angles rounded to 2 decimals, the g-force to 3, as fixed-point
    numerals separated by commas and ended by a line feed, with no comma
    before it. *)
Theorem log_file_layout (csv_path : string) (boot : Reading) (readings : list Reading)
        (s : State) (evs : list event) :
  script csv_path boot readings = Ok (s, evs) ->
  (exists rest, evs = OpenW csv_path :: Write csv_header :: Close :: rest)
  /\ csv_header = "alt_m,accel_g,roll_deg,pitch_deg" ++ LF
  /\ (exists rows,
        file_contents evs = csv_header :: rows
        /\ List.length rows = List.length readings
        /\ Forall data_line rows
        /\ ~ In csv_header rows)
  /\ forall i s' evs',
       loop_body s i = Ok (s', evs') ->
       exists alt g line,
         alt_m (pressure i) (p0 s) = Ok alt
         /\ accel_magnitude_g (fst (fst (acceleration i))) (snd (fst (acceleration i)))
              (snd (acceleration i)) = Ok g
         /\ writes evs' = [line]
         /\ row_shows alt g (roll s') (pitch s') line
         /\ data_line line.
Proof.
  intros Hrun.
  split; [exact (script_creates_file _ _ _ _ _ Hrun) |].
  split; [reflexivity |].
  split.
  - destruct (script_file_contents _ _ _ _ _ Hrun) as (rows & Hw & Hlen & Hall).
    exists rows. repeat split; try assumption.
    intros Hin. rewrite Forall_forall in Hall.
    exact (data_line_not_header _ (Hall _ Hin) eq_refl).
  - intros i s' evs' Hstep.
    apply loop_body_inv in Hstep
      as (alt & g & ax & ay & az & gx & gy & gz & Hacc & _ & Halt & _ & Hg & _ & _ & _ & ->).
    exists alt, g, (csv_row alt g (roll s') (pitch s')). rewrite Hacc. cbn [fst snd].
    split; [assumption |]. split; [assumption |].
    split; [apply iteration_writes |].
    split; [apply csv_row_shows | apply csv_row_data_line].
Qed.

Close Scope string_scope.

Lemma log_file_layout_witness :
  exists s evs rows,
    script "/logs/log_001.csv" (level_reading 0 1013.25)
           (repeat (level_reading 1 1013.25) 3) = Ok (s, evs)
    /\ file_contents evs = csv_header :: rows
    /\ List.length rows = 3%nat
    /\ Forall data_line rows.
Proof.
  destruct (script_defined "/logs/log_001.csv" (level_reading 0 1013.25)
              (repeat (level_reading 1 1013.25) 3)) as (s & evs & H).
  - cbn. lra.
  - apply Forall_forall. intros i Hi. apply repeat_spec in Hi. subst i. cbn. lra.
  - destruct (log_file_layout _ _ _ s evs H)
      as (_ & _ & (rows & Hw & Hlen & Hall & _) & _).
    exists s, evs, rows. repeat split; assumption.
Defined.

(** ** C10: one iteration is a function of its declared inputs *)

(** C10.  One loop iteration is deterministic in the previous
    [(roll, pitch, line_count, p0)] and the iteration inputs (accel
    triple, gyro triple, pressure, [dt]): two runs that agree on these
    write the same CSV line and end with the same [(roll, pitch)] and the
    same [line_count], or stop with the same exception, whatever the
    clock values and the status timestamps are. *)
Theorem loop_body_deterministic (s1 s2 : State) (i1 i2 : Reading) :
  p0 s1 = p0 s2 -> roll s1 = roll s2 -> pitch s1 = pitch s2 ->
  line_count s1 = line_count s2 ->
  acceleration i1 = acceleration i2 -> gyro i1 = gyro i2 ->
  pressure i1 = pressure i2 ->
  now i1 - last_t s1 = now i2 - last_t s2 ->
  logged (loop_body s1 i1) = logged (loop_body s2 i2).
Proof.
  intros Hp0 Hroll Hpitch Hlc Hacc Hgyro Hp Hdt.
  unfold loop_body.
  rewrite Hp0, Hroll, Hpitch, Hlc, Hacc, Hgyro, Hp, Hdt.
  destruct (acceleration i2) as [[ax ay] az].
  destruct (gyro i2) as [[gx gy] gz].
  destruct (alt_m (pressure i2) (p0 s2)) as [alt | e |]; cbn [bind]; [| reflexivity | reflexivity].
  rewrite filter_update_value. cbn [bind].
  rewrite accel_magnitude_g_value. cbn [bind].
  unfold logged. cbn [bind roll pitch line_count].
  destruct ((line_count s2 + 1) mod flush_every =? 0)%Z;
    destruct (Rle_dec 1 (now i1 - last_status s1));
    destruct (Rle_dec 1 (now i2 - last_status s2)); reflexivity.
Qed.

Lemma loop_body_deterministic_witness :
  logged (loop_body ground_state (level_reading 0.05 1013.25))
  = logged (loop_body
              {| p0 := 1013.25; roll := 0; pitch := 0;
                 last_t := 100; last_status := 99; line_count := 0 |}
              (level_reading 100.05 1013.25)).
Proof.
  apply loop_body_deterministic; cbn; try reflexivity. lra.
Defined.

(** * Further properties of the script *)

(** ** The file name *)

Open Scope string_scope.

Lemma append_inv_head (s t u : string) : s ++ t = s ++ u -> t = u.
Proof.
  induction s as [| c s IH]; cbn; intros H; [assumption |].
  injection H as H. auto.
Qed.

Lemma append_inv_tail (s t u : string) : s ++ u = t ++ u -> s = t.
Proof.
  revert t. induction s as [| c s IH]; intros [| c' t] H.
  - reflexivity.
  - exfalso. apply (f_equal String.length) in H.
    cbn in H. rewrite length_app in H. lia.
  - exfalso. apply (f_equal String.length) in H.
    cbn in H. rewrite length_app in H. lia.
  - cbn in H. injection H as -> H. f_equal. auto.
Qed.

Lemma append_assoc (s t u : string) : (s ++ t) ++ u = s ++ t ++ u.
Proof.
  induction s as [| c s IH]; cbn; [reflexivity | now rewrite IH].
Qed.

Lemma read_numeral_zeros (k : nat) (s : string) :
  read_numeral (zeros k ++ s) = read_numeral s.
Proof.
  induction k as [| k IH]; [reflexivity |].
  unfold read_numeral in *. cbn [zeros append NilEmpty.uint_of_string].
  destruct (NilEmpty.uint_of_string (zeros k ++ s)) as [d |];
    destruct (NilEmpty.uint_of_string s) as [d' |]; cbn in *;
    try discriminate; try exact IH; reflexivity.
Qed.

Lemma read_numeral_numeral (n : Z) : read_numeral (numeral n) = Some (Z.to_N n).
Proof.
  unfold read_numeral, numeral. rewrite NilEmpty.usu. cbn.
  now rewrite DecimalN.Unsigned.of_to.
Qed.

Lemma read_format_03d (n : Z) :
  (0 <= n)%Z -> read_numeral (format_03d n) = Some (Z.to_N n).
Proof.
  intros Hn. unfold format_03d.
  destruct (n <? 0)%Z eqn:E; [apply Z.ltb_lt in E; lia |].
  rewrite read_numeral_zeros. apply read_numeral_numeral.
Qed.

Lemma format_03d_inj (n m : Z) :
  (0 <= n)%Z -> (0 <= m)%Z -> format_03d n = format_03d m -> n = m.
Proof.
  intros Hn Hm H. apply (f_equal read_numeral) in H.
  rewrite !read_format_03d in H by assumption.
  injection H as H. lia.
Qed.

Section NextCsv.

Variable can_open : string -> bool.
Variables path prefix ext : string.

Let name_of := csv_name path prefix ext.
Let probe := next_csv_from can_open path prefix ext.

Lemma csv_name_inj (n m : Z) :
  (0 <= n)%Z -> (0 <= m)%Z -> name_of n = name_of m -> n = m.
Proof.
  intros Hn Hm H. unfold name_of, csv_name in H.
  apply append_inv_head in H. apply (append_inv_head "/") in H.
  apply append_inv_head in H. apply append_inv_tail in H.
  apply format_03d_inj; assumption.
Qed.

(** What the loop returns, when it returns. *)
Lemma next_csv_from_some (fuel : nat) :
  forall n name,
    probe fuel n = Some name ->
    exists j : nat,
      (j < fuel)%nat
      /\ name = name_of (n + Z.of_nat j)
      /\ can_open name = false
      /\ forall i : nat, (i < j)%nat -> can_open (name_of (n + Z.of_nat i)) = true.
Proof.
  induction fuel as [| fuel IH]; intros n name H; [discriminate |].
  cbn [probe next_csv_from] in H. unfold probe in H. cbn [next_csv_from] in H.
  destruct (can_open (csv_name path prefix ext n)) eqn:E.
  - apply IH in H as (j & Hj & Hname & Hclosed & Hopen).
    exists (S j). rewrite Nat2Z.inj_succ.
    replace (n + Z.succ (Z.of_nat j))%Z with (n + 1 + Z.of_nat j)%Z by lia.
    repeat split; [lia | assumption | assumption |].
    intros [| i] Hi.
    + cbn. rewrite Z.add_0_r. exact E.
    + rewrite Nat2Z.inj_succ.
      replace (n + Z.succ (Z.of_nat i))%Z with (n + 1 + Z.of_nat i)%Z by lia.
      apply Hopen. lia.
  - injection H as <-. exists O. cbn. rewrite Z.add_0_r.
    repeat split; [lia | assumption |]. intros i Hi. lia.
Qed.

(** When the probes run out, every name probed could be opened. *)
Lemma next_csv_from_none (fuel : nat) :
  forall n,
    probe fuel n = None ->
    forall i : nat, (i < fuel)%nat -> can_open (name_of (n + Z.of_nat i)) = true.
Proof.
  induction fuel as [| fuel IH]; intros n H i Hi; [lia |].
  unfold probe in H. cbn [next_csv_from] in H.
  destruct (can_open (csv_name path prefix ext n)) eqn:E; [| discriminate].
  destruct i as [| i].
  - cbn. rewrite Z.add_0_r. exact E.
  - rewrite Nat2Z.inj_succ.
    replace (n + Z.succ (Z.of_nat i))%Z with (n + 1 + Z.of_nat i)%Z by lia.
    apply (IH (n + 1)%Z H). lia.
Qed.

(** More fuel does not change a result. *)
Lemma next_csv_from_more_fuel (fuel : nat) :
  forall n name extra,
    probe fuel n = Some name -> probe (fuel + extra) n = Some name.
Proof.
  induction fuel as [| fuel IH]; intros n name extra H; [discriminate |].
  unfold probe in *. cbn [next_csv_from Nat.add] in *.
  destruct (can_open (csv_name path prefix ext n)); [| assumption].
  apply IH. assumption.
Qed.

(** The names with the counters [1 .. k]. *)
Let first_names (k : nat) : list string :=
  map (fun i => name_of (Z.of_nat i)) (seq 1 k).

Lemma first_names_NoDup (k : nat) : NoDup (first_names k).
Proof.
  unfold first_names.
  apply Finite.Injective_map_NoDup_in; [| apply seq_NoDup].
  intros i j _ _ H. apply csv_name_inj in H; lia.
Qed.

Lemma next_csv_from_finite (files : list string) :
  (forall name, can_open name = true -> In name files) ->
  exists name, probe (S (List.length files)) 1 = Some name.
Proof.
  intros Hfin.
  destruct (probe (S (List.length files)) 1) as [name |] eqn:E; [now exists name |].
  exfalso.
  pose proof (next_csv_from_none _ _ E) as Hall.
  assert (Hincl : incl (first_names (S (List.length files))) files).
  { intros nm Hin. unfold first_names in Hin.
    apply in_map_iff in Hin as (i & <- & Hi). apply in_seq in Hi.
    apply Hfin.
    replace (Z.of_nat i) with (1 + Z.of_nat (i - 1))%Z by lia.
    apply Hall. lia. }
  apply NoDup_incl_length in Hincl; [| apply first_names_NoDup].
  unfold first_names in Hincl. rewrite length_map, length_seq in Hincl. lia.
Qed.

End NextCsv.

(** X1.  When [next_csv] returns, the name it returns carries a counter
    [n >= 1], cannot be opened, and every name with a smaller counter can:
    it is the first unused name. *)
Theorem next_csv_first_unused (can_open : string -> bool)
        (path prefix ext : string) (fuel : nat) (name : string) :
  next_csv can_open path prefix ext fuel = Some name ->
  exists n,
    (1 <= n)%Z
    /\ name = csv_name path prefix ext n
    /\ can_open name = false
    /\ forall m, (1 <= m < n)%Z -> can_open (csv_name path prefix ext m) = true.
Proof.
  intros H. apply next_csv_from_some in H as (j & _ & Hname & Hclosed & Hopen).
  exists (1 + Z.of_nat j)%Z. repeat split; [lia | assumption | assumption |].
  intros m Hm.
  replace m with (1 + Z.of_nat (Z.to_nat (m - 1)))%Z by lia.
  apply Hopen. lia.
Qed.

Lemma next_csv_first_unused_witness :
  exists n,
    (1 <= n)%Z
    /\ "/logs/log_003.csv" = csv_name "/logs" "log_" ".csv" n
    /\ two_logs "/logs/log_003.csv" = false
    /\ forall m, (1 <= m < n)%Z -> two_logs (csv_name "/logs" "log_" ".csv" m) = true.
Proof.
  apply (next_csv_first_unused two_logs "/logs" "log_" ".csv" 10 "/logs/log_003.csv").
  reflexivity.
Defined.

(** X2.  When only finitely many files can be opened, [next_csv] returns:
    one probe more than there are files is enough. *)
Theorem next_csv_terminates (can_open : string -> bool)
        (path prefix ext : string) (files : list string) :
  (forall name, can_open name = true -> In name files) ->
  exists name,
    next_csv can_open path prefix ext (S (List.length files)) = Some name.
Proof. apply next_csv_from_finite. Qed.

Lemma next_csv_terminates_witness :
  exists name, next_csv two_logs "/logs" "log_" ".csv" 3 = Some name.
Proof.
  apply (next_csv_terminates two_logs "/logs" "log_" ".csv"
           ["/logs/log_001.csv"; "/logs/log_002.csv"]).
  intros name H. unfold two_logs in H. apply orb_true_iff in H.
  destruct H as [H | H]; apply String.eqb_eq in H; subst; cbn; auto.
Defined.

(** X3.  Different counters give different file names, also past 999
    where the numeral outgrows its three digits. *)
Theorem csv_name_injective (path prefix ext : string) (n m : Z) :
  (0 <= n)%Z -> (0 <= m)%Z -> n <> m ->
  csv_name path prefix ext n <> csv_name path prefix ext m.
Proof.
  intros Hn Hm Hneq H. apply Hneq. exact (csv_name_inj path prefix ext n m Hn Hm H).
Qed.

Lemma csv_name_injective_witness :
  csv_name "/logs" "log_" ".csv" 100 <> csv_name "/logs" "log_" ".csv" 1000.
Proof. apply csv_name_injective; lia. Defined.

(** X4.  Log rotation: once the file a call returned exists, and no file
    has been removed, a later call returns a name with a larger counter. *)
Theorem next_csv_rotates (can_open can_open' : string -> bool)
        (path prefix ext : string) (fuel fuel' : nat) (name name' : string) :
  next_csv can_open path prefix ext fuel = Some name ->
  can_open' name = true ->
  (forall x, can_open x = true -> can_open' x = true) ->
  next_csv can_open' path prefix ext fuel' = Some name' ->
  exists n n',
    name = csv_name path prefix ext n
    /\ name' = csv_name path prefix ext n'
    /\ (1 <= n < n')%Z.
Proof.
  intros H Hnew Hkeep H'.
  apply next_csv_from_some in H as (j & _ & Hname & _ & Hopen).
  apply next_csv_from_some in H' as (j' & _ & Hname' & Hclosed' & _).
  exists (1 + Z.of_nat j)%Z, (1 + Z.of_nat j')%Z.
  repeat split; [assumption | assumption | lia |].
  destruct (Nat.lt_trichotomy j' j) as [L | [E | G]]; [| | lia].
  - apply Hopen, Hkeep in L. rewrite <- Hname' in L. congruence.
  - subst j'. rewrite <- Hname in Hname'. subst name'. congruence.
Qed.

Lemma next_csv_rotates_witness :
  exists n n',
    "/logs/log_001.csv" = csv_name "/logs" "log_" ".csv" n
    /\ "/logs/log_003.csv" = csv_name "/logs" "log_" ".csv" n'
    /\ (1 <= n < n')%Z.
Proof.
  apply (next_csv_rotates (fun _ => false) two_logs "/logs" "log_" ".csv" 5 5
           "/logs/log_001.csv" "/logs/log_003.csv").
  - reflexivity.
  - reflexivity.
  - discriminate.
  - reflexivity.
Defined.

Close Scope string_scope.

(** ** The file the script creates *)

Lemma iteration_events_no_open (s : State) (i : Reading) (alt g r' p' : R) :
  Forall (fun ev => opens_to_write ev = false) (iteration_events s i alt g r' p').
Proof.
  unfold iteration_events.
  destruct ((line_count s + 1) mod flush_every =? 0)%Z;
    destruct (Rle_dec 1 (now i - last_status s));
    repeat constructor.
Qed.

Lemma iterate_no_open (readings : list Reading) :
  forall s s' evs,
    iterate s readings = Ok (s', evs) ->
    Forall (fun ev => opens_to_write ev = false) evs.
Proof.
  induction readings as [| i rest IH]; intros s s' evs H.
  - cbn in H. injection H as _ <-. constructor.
  - apply iterate_cons_inv in H as (s1 & evs1 & evs2 & H1 & H2 & ->).
    apply loop_body_inv in H1
      as (alt & g & ax & ay & az & gx & gy & gz & _ & _ & _ & _ & _ & _ & _ & _ & ->).
    apply Forall_app. split; [apply iteration_events_no_open | exact (IH _ _ _ H2)].
Qed.

(** X5.  The script never truncates a log that can be read: the only
    file it opens to write to is the one [next_csv] returned, which could
    not be opened for reading; it opens it once in mode ["w"], for the
    header, and once in mode ["a"], for the loop.  (The files [next_csv]
    opens for reading are not in the trace.) *)
Theorem boot_script_fresh_file (can_open : string -> bool) (fuel : nat)
        (boot : Reading) (readings : list Reading) (s : State) (evs : list event) :
  boot_script can_open fuel boot readings = Some (Ok (s, evs)) ->
  exists csv_path,
    next_csv can_open "/logs" "log_" ".csv" fuel = Some csv_path
    /\ can_open csv_path = false
    /\ filter opens_to_write evs = [OpenW csv_path; OpenA csv_path].
Proof.
  unfold boot_script.
  destruct (next_csv can_open "/logs" "log_" ".csv" fuel) as [csv_path |] eqn:E;
    [| discriminate].
  intros H. injection H as H.
  exists csv_path. split; [reflexivity |]. split.
  - apply next_csv_from_some in E as (j & _ & _ & Hclosed & _). exact Hclosed.
  - apply script_inv in H as (s0 & evs0 & evs1 & H0 & H1 & ->).
    destruct (startup_value csv_path boot) as (s0' & evs0' & H0' & _ & _ & _ & _ & Hev).
    rewrite H0 in H0'. injection H0' as <- <-. subst evs0.
    rewrite filter_app. cbn [filter opens_to_write].
    apply iterate_no_open in H1.
    assert (Hnone : filter opens_to_write evs1 = []).
    { clear -H1. induction H1 as [| ev l Hev _ IH]; [reflexivity |].
      cbn [filter]. rewrite Hev. exact IH. }
    rewrite Hnone. reflexivity.
Qed.

Lemma boot_script_fresh_file_witness :
  exists s evs,
    boot_script two_logs 10 (level_reading 0 1013.25) [level_reading 0.05 1000]
    = Some (Ok (s, evs))
    /\ filter opens_to_write evs
       = [OpenW "/logs/log_003.csv"%string; OpenA "/logs/log_003.csv"%string].
Proof.
  destruct (script_defined "/logs/log_003.csv" (level_reading 0 1013.25)
              [level_reading 0.05 1000]) as (s & evs & H).
  - cbn. lra.
  - constructor; [cbn; lra | constructor].
  - exists s, evs.
    assert (Hboot : boot_script two_logs 10 (level_reading 0 1013.25)
                      [level_reading 0.05 1000] = Some (Ok (s, evs))).
    { unfold boot_script.
      change (next_csv two_logs "/logs" "log_" ".csv" 10)
        with (Some "/logs/log_003.csv"%string).
      cbv beta iota. rewrite H. reflexivity. }
    split; [exact Hboot |].
    destruct (boot_script_fresh_file _ _ _ _ _ _ Hboot) as (csv_path & Hpath & _ & Hopen).
    change (next_csv two_logs "/logs" "log_" ".csv" 10)
      with (Some "/logs/log_003.csv"%string) in Hpath.
    injection Hpath as <-. exact Hopen.
Defined.

(** ** The altitude expression, further *)

(** X8.  With a positive baseline and a positive pressure the altitude
    is at most 44330 m; it is not negative when the pressure is at most
    the baseline, and not positive when the pressure is at least the
    baseline. *)
Theorem alt_m_sign (p p0 : R) :
  0 < p0 -> 0 < p ->
  exists v,
    alt_m p p0 = Ok v
    /\ v <= 44330
    /\ (p <= p0 -> 0 <= v)
    /\ (p0 <= p -> v <= 0).
Proof.
  intros Hp0 Hp.
  exists (44330 * (1 - Rpower (p / p0) (1 / 5.255))).
  split; [apply alt_m_pos; assumption |].
  pose proof (Rpower_gt_0 (p / p0) (1 / 5.255)) as Hpos.
  assert (Hone : Rpower 1 (1 / 5.255) = 1).
  { unfold Rpower. rewrite ln_1, Rmult_0_r. apply exp_0. }
  assert (Hratio : 0 < p / p0) by (apply Rdiv_lt_0_compat; assumption).
  split; [lra |]. split.
  - intros Hle.
    assert (p / p0 <= 1).
    { apply Rmult_le_reg_r with (r := p0); [assumption |].
      unfold Rdiv. rewrite Rmult_assoc, Rinv_l by lra. lra. }
    assert (Rpower (p / p0) (1 / 5.255) <= 1).
    { pose proof (Rle_Rpower_l (p / p0) 1 (1 / 5.255)) as Hl.
      rewrite Hone in Hl. apply Hl; lra. }
    lra.
  - intros Hge.
    assert (1 <= p / p0).
    { apply Rmult_le_reg_r with (r := p0); [assumption |].
      unfold Rdiv. rewrite Rmult_assoc, Rinv_l by lra. lra. }
    assert (1 <= Rpower (p / p0) (1 / 5.255)).
    { pose proof (Rle_Rpower_l 1 (p / p0) (1 / 5.255)) as Hl.
      rewrite Hone in Hl. apply Hl; lra. }
    lra.
Qed.

Lemma alt_m_sign_witness :
  exists v,
    alt_m 900 1013.25 = Ok v
    /\ v <= 44330
    /\ (900 <= 1013.25 -> 0 <= v)
    /\ (1013.25 <= 900 -> v <= 0).
Proof. apply alt_m_sign; lra. Defined.

(** ** The tilt estimate, further *)

Lemma degrees_lt (a b : R) : a < b -> math.degrees a < math.degrees b.
Proof.
  intros H. unfold math.degrees. apply Rmult_lt_compat_r; [| assumption].
  apply Rdiv_lt_0_compat; [lra | apply PI_RGT_0].
Qed.

Lemma degrees_le (a b : R) : a <= b -> math.degrees a <= math.degrees b.
Proof.
  intros [H | ->]; [left; apply degrees_lt; assumption | right; reflexivity].
Qed.

Lemma degrees_PI : math.degrees PI = 180.
Proof. unfold math.degrees. field. apply PI_neq0. Qed.

Lemma degrees_half_PI : math.degrees (PI / 2) = 90.
Proof. unfold math.degrees. field. apply PI_neq0. Qed.

Lemma degrees_opp (a : R) : math.degrees (- a) = - math.degrees a.
Proof. unfold math.degrees. ring. Qed.

Lemma atan_neg (x : R) : x < 0 -> atan x < 0.
Proof. intros H. rewrite <- atan_0. apply atan_increasing. assumption. Qed.

Lemma atan_pos (x : R) : 0 < x -> 0 < atan x.
Proof. intros H. rewrite <- atan_0. apply atan_increasing. assumption. Qed.

Lemma ratio_neg_pos (y x : R) : x < 0 -> y < 0 -> 0 < y / x.
Proof.
  intros Hx Hy. replace (y / x) with ((- y) / (- x)) by (field; lra).
  apply Rdiv_lt_0_compat; lra.
Qed.

Lemma ratio_pos_neg (y x : R) : x < 0 -> 0 < y -> y / x < 0.
Proof.
  intros Hx Hy. replace (y / x) with (- (y / (- x))) by (field; lra).
  assert (0 < y / (- x)) by (apply Rdiv_lt_0_compat; lra). lra.
Qed.

(** The angle [math.atan2] returns is in the half-open turn. *)
Lemma atan2_range (y x : R) : - PI < math.atan2 y x <= PI.
Proof.
  pose proof PI_RGT_0 as HPI. unfold math.atan2.
  destruct (Rlt_dec 0 x) as [Hx | Hx].
  - pose proof (atan_bound (y / x)). lra.
  - destruct (Rlt_dec x 0) as [Hx' | Hx'].
    + pose proof (atan_bound (y / x)) as Hb.
      destruct (Rle_dec 0 y) as [Hy | Hy].
      * destruct Hy as [Hy | <-].
        -- pose proof (atan_neg _ (ratio_pos_neg y x Hx' Hy)). lra.
        -- replace (0 / x) with 0 by (field; lra). rewrite atan_0. lra.
      * assert (Hy' : y < 0) by lra.
        pose proof (atan_pos _ (ratio_neg_pos y x Hx' Hy')). lra.
    + destruct (Rlt_dec 0 y); [lra |]. destruct (Rlt_dec y 0); lra.
Qed.

(** With a second argument that is not negative, it is in the right
    half-turn. *)
Lemma atan2_right_half (y x : R) :
  0 <= x -> - (PI / 2) <= math.atan2 y x <= PI / 2.
Proof.
  intros H0. pose proof PI_RGT_0 as HPI. unfold math.atan2.
  destruct (Rlt_dec 0 x) as [Hx | Hx].
  - pose proof (atan_bound (y / x)). lra.
  - destruct (Rlt_dec x 0) as [Hx' | Hx']; [lra |].
    destruct (Rlt_dec 0 y); [lra |]. destruct (Rlt_dec y 0); lra.
Qed.

(** X10.  The tilt estimate is in range: the roll is between -180 and
    180 degrees, the pitch between -90 and 90 degrees. *)
Theorem accel_angles_deg_range (ax ay az : R) :
  exists roll_acc pitch_acc,
    accel_angles_deg ax ay az = Ok (roll_acc, pitch_acc)
    /\ -180 <= roll_acc <= 180
    /\ -90 <= pitch_acc <= 90.
Proof.
  eexists. eexists. split; [apply accel_angles_deg_value |].
  pose proof (atan2_range ay az) as [Hlo Hhi].
  pose proof (atan2_right_half (- ax) (sqrt (ay * ay + az * az)) (sqrt_pos _)) as [Plo Phi].
  apply degrees_lt in Hlo. apply degrees_le in Hhi, Plo, Phi.
  rewrite degrees_opp in Hlo, Plo.
  rewrite degrees_PI in Hlo, Hhi. rewrite degrees_half_PI in Plo, Phi.
  lra.
Qed.

(** X12.  The acceleration magnitude never raises: the argument of
    [math.sqrt] is a sum of squares.  The magnitude is not negative, and
    it is zero for the zero vector. *)
Theorem accel_magnitude_g_nonneg (ax ay az : R) :
  exists g,
    accel_magnitude_g ax ay az = Ok g
    /\ 0 <= g
    /\ (ax = 0 -> ay = 0 -> az = 0 -> g = 0).
Proof.
  eexists. split; [apply accel_magnitude_g_value |].
  pose proof (sqrt_pos (ax * ax + ay * ay + az * az)) as Hs.
  split.
  - apply Rmult_le_pos; [assumption | lra].
  - intros -> -> ->.
    replace (0 * 0 + 0 * 0 + 0 * 0) with 0 by ring. rewrite sqrt_0. lra.
Qed.

Lemma accel_magnitude_g_nonneg_witness :
  exists g, accel_magnitude_g 0 0 0 = Ok g /\ 0 <= g /\ g = 0.
Proof.
  destruct (accel_magnitude_g_nonneg 0 0 0) as (g & H & Hpos & Hz).
  exists g. split; [exact H |]. split; [exact Hpos |]. apply Hz; reflexivity.
Defined.

(** ** The filter over a run *)






(** ** The loop over a run *)

Lemma iterate_app_inv (r1 : list Reading) :
  forall r2 s s2 evs,
    iterate s (r1 ++ r2) = Ok (s2, evs) ->
    exists s1 evs1 evs2,
      iterate s r1 = Ok (s1, evs1)
      /\ iterate s1 r2 = Ok (s2, evs2)
      /\ evs = evs1 ++ evs2.
Proof.
  induction r1 as [| i r1 IH]; intros r2 s s2 evs H.
  - exists s, [], evs. auto.
  - rewrite <- app_comm_cons in H.
    apply iterate_cons_inv in H as (sa & evsa & evsb & Ha & Hb & ->).
    apply IH in Hb as (s1 & evs1 & evs2 & Hb1 & Hb2 & ->).
    exists s1, (evsa ++ evs1), evs2. cbn [iterate]. rewrite Ha. cbn [bind].
    rewrite Hb1. cbn [bind]. rewrite app_assoc. auto.
Qed.

(** X16.  The log is append-only: a longer run leaves in the file what
    the shorter run left, followed by one data line for each further
    iteration. *)
Theorem log_append_only (csv_path : string) (boot : Reading) (r1 r2 : list Reading)
        (s : State) (evs : list event) :
  script csv_path boot (r1 ++ r2) = Ok (s, evs) ->
  exists s1 evs1 rows,
    script csv_path boot r1 = Ok (s1, evs1)
    /\ file_contents evs = file_contents evs1 ++ rows
    /\ List.length rows = List.length r2
    /\ Forall data_line rows.
Proof.
  intros H.
  apply script_inv in H as (s0 & evs0 & evsl & H0 & Hl & ->).
  apply iterate_app_inv in Hl as (s1 & evs1 & evs2 & H1 & H2 & ->).
  exists s1, (evs0 ++ evs1), (writes evs2).
  split; [unfold script; rewrite H0; cbn [bind]; rewrite H1; reflexivity |].
  destruct (iterate_writes _ _ _ _ H2) as [Hlen Hall].
  split; [| split; assumption].
  unfold file_contents.
  rewrite app_assoc, file_after_app. apply (iterate_file_after _ _ _ _ _ H2).
Qed.

Lemma log_append_only_witness :
  exists s evs s1 evs1 rows,
    script "/logs/log_001.csv" (level_reading 0 1013.25)
           ([level_reading 0.05 1000] ++ [level_reading 0.1 990]) = Ok (s, evs)
    /\ script "/logs/log_001.csv" (level_reading 0 1013.25) [level_reading 0.05 1000]
       = Ok (s1, evs1)
    /\ file_contents evs = file_contents evs1 ++ rows
    /\ List.length rows = 1%nat.
Proof.
  destruct (script_defined "/logs/log_001.csv" (level_reading 0 1013.25)
              ([level_reading 0.05 1000] ++ [level_reading 0.1 990])) as (s & evs & H).
  - cbn. lra.
  - repeat constructor; cbn; lra.
  - destruct (log_append_only _ _ _ _ s evs H) as (s1 & evs1 & rows & H1 & Hf & Hl & _).
    exists s, evs, s1, evs1, rows. auto.
Defined.

(** ** Buffered lines *)

Lemma pending_after_app (a b : list event) :
  forall k, pending_after (a ++ b) k = pending_after b (pending_after a k).
Proof.
  induction a as [| ev a IH]; intros k; [reflexivity |].
  destruct ev; simpl; apply IH.
Qed.

Lemma pending_after_iteration (s : State) (i : Reading) (alt g r' p' : R) (k : nat) :
  pending_after (iteration_events s i alt g r' p') k
  = if ((line_count s + 1) mod flush_every =? 0)%Z then O else S k.
Proof.
  unfold iteration_events.
  destruct ((line_count s + 1) mod flush_every =? 0)%Z;
    destruct (Rle_dec 1 (now i - last_status s)); reflexivity.
Qed.

Lemma mod_flush_every_step (c : Z) :
  (0 <= c)%Z ->
  Z.to_nat ((c + 1) mod flush_every)
  = if ((c + 1) mod flush_every =? 0)%Z then O else S (Z.to_nat (c mod flush_every)).
Proof.
  intros Hc. unfold flush_every.
  pose proof (Z.div_mod (c + 1) 25 ltac:(lia)).
  pose proof (Z.div_mod c 25 ltac:(lia)).
  pose proof (Z.mod_pos_bound c 25 ltac:(lia)).
  pose proof (Z.mod_pos_bound (c + 1) 25 ltac:(lia)).
  destruct ((c + 1) mod 25 =? 0)%Z eqn:E.
  - apply Z.eqb_eq in E. rewrite E. reflexivity.
  - apply Z.eqb_neq in E.
    assert ((c + 1) mod 25 = c mod 25 + 1)%Z by lia. lia.
Qed.

Lemma iterate_pending (readings : list Reading) :
  forall s s' evs,
    iterate s readings = Ok (s', evs) ->
    (0 <= line_count s)%Z ->
    pending_after evs (Z.to_nat (line_count s mod flush_every))
    = Z.to_nat ((line_count s + Z.of_nat (List.length readings)) mod flush_every).
Proof.
  induction readings as [| i rest IH]; intros s s' evs H Hc.
  - cbn in H. injection H as _ <-. cbn. now rewrite Z.add_0_r.
  - apply iterate_cons_inv in H as (s1 & evs1 & evs2 & H1 & H2 & ->).
    apply loop_body_inv in H1
      as (alt & g & ax & ay & az & gx & gy & gz & _ & _ & _ & _ & _ & _ & _ & Hlc & ->).
    rewrite pending_after_app, pending_after_iteration.
    rewrite <- (mod_flush_every_step (line_count s) Hc), <- Hlc.
    rewrite (IH _ _ _ H2) by lia. rewrite Hlc. f_equal. f_equal.
    cbn [List.length]. lia.
Qed.

(** X17.  The flush policy bounds what a power cut can lose: after [N]
    completed iterations the number of lines written and not yet flushed
    is [N mod 25], at most 24. *)
Theorem unflushed_bound (csv_path : string) (boot : Reading) (readings : list Reading)
        (s : State) (evs : list event) :
  script csv_path boot readings = Ok (s, evs) ->
  unflushed evs = (List.length readings mod 25)%nat
  /\ (unflushed evs <= 24)%nat.
Proof.
  intros H.
  apply script_inv in H as (s0 & evs0 & evs1 & H0 & H1 & ->).
  destruct (startup_value csv_path boot) as (s0' & evs0' & H0' & _ & Hlc & _ & _ & Hev).
  rewrite H0 in H0'. injection H0' as <- <-.
  assert (Heq : unflushed (evs0 ++ evs1) = (List.length readings mod 25)%nat).
  { unfold unflushed. rewrite pending_after_app. subst evs0. cbn [pending_after].
    pose proof (iterate_pending _ _ _ _ H1) as Hp. rewrite Hlc in Hp.
    change (Z.to_nat (0 mod flush_every)) with O in Hp.
    rewrite Hp by lia. unfold flush_every. rewrite Z.add_0_l.
    apply Nat2Z.inj. rewrite Nat2Z.inj_mod, Z2Nat.id; [reflexivity |].
    apply Z.mod_pos_bound. lia. }
  split; [exact Heq |]. rewrite Heq.
  pose proof (Nat.mod_upper_bound (List.length readings) 25 ltac:(lia)). lia.
Qed.

Lemma unflushed_bound_witness :
  exists s evs,
    script "/logs/log_001.csv" (level_reading 0 1013.25)
           (repeat (level_reading 1 1013.25) 27) = Ok (s, evs)
    /\ unflushed evs = 2%nat.
Proof.
  destruct (script_defined "/logs/log_001.csv" (level_reading 0 1013.25)
              (repeat (level_reading 1 1013.25) 27)) as (s & evs & H).
  - cbn. lra.
  - apply Forall_forall. intros i Hi. apply repeat_spec in Hi. subst i. cbn. lra.
  - exists s, evs. split; [exact H |].
    exact (proj1 (unflushed_bound _ _ _ s evs H)).
Defined.

(** ** The status line *)

(** X18.  The status line is throttled to one per second: an iteration
    prints it exactly when at least 1.0 s has passed since the last
    status, then restarts the count from [now]; otherwise it prints
    nothing and keeps the timestamp.  The line shows the values of the
    row written in the same iteration, and afterwards less than a second
    is left on the count. *)
Theorem status_throttle (s s' : State) (i : Reading) (evs : list event) :
  loop_body s i = Ok (s', evs) ->
  exists alt g,
    writes evs = [csv_row alt g (roll s') (pitch s')]
    /\ (1 <= now i - last_status s ->
          prints evs = [status_line alt g (roll s') (pitch s')]
          /\ last_status s' = now i)
    /\ (now i - last_status s < 1 ->
          prints evs = [] /\ last_status s' = last_status s)
    /\ last_t s' - last_status s' < 1.
Proof.
  unfold loop_body.
  destruct (acceleration i) as [[ax ay] az].
  destruct (gyro i) as [[gx gy] gz].
  destruct (alt_m (pressure i) (p0 s)) as [alt | e |]; cbn [bind]; [| discriminate | discriminate].
  rewrite filter_update_value. cbn [bind].
  rewrite accel_magnitude_g_value. cbn [bind].
  intros H. injection H as <- <-. cbn [roll pitch last_t last_status].
  exists alt, (sqrt (ax * ax + ay * ay + az * az) / 9.80665).
  destruct ((line_count s + 1) mod flush_every =? 0)%Z;
    destruct (Rle_dec 1 (now i - last_status s)) as [Hge | Hlt];
    cbn; (split; [reflexivity |]); (split; [| split]);
    try (intros; split; reflexivity); try (intros; lra); lra.
Qed.

Lemma status_throttle_witness :
  exists s' evs alt g,
    loop_body ground_state (level_reading 1.5 1000) = Ok (s', evs)
    /\ prints evs = [status_line alt g (roll s') (pitch s')]
    /\ last_status s' = 1.5.
Proof.
  destruct (alt_m_defined 1000 1013.25) as [a Ha]; [lra | lra |].
  destruct (loop_body_defined ground_state (level_reading 1.5 1000) a Ha)
    as (s' & evs & H).
  destruct (status_throttle _ _ _ _ H) as (alt & g & _ & Hprint & _ & _).
  exists s', evs, alt, g. split; [exact H |].
  apply Hprint. cbn. lra.
Defined.

(** ** A zero baseline *)

(** X19.  A zero baseline is not caught at startup: startup completes,
    and it is the first loop iteration that stops the script, with
    [ZeroDivisionError], whatever the readings are. *)
Theorem zero_baseline_script (csv_path : string) (boot i : Reading)
        (rest : list Reading) :
  pressure boot = 0 ->
  (exists s0 evs0, startup csv_path boot = Ok (s0, evs0))
  /\ script csv_path boot (i :: rest) = Raise ZeroDivisionError.
Proof.
  intros Hz.
  destruct (startup_value csv_path boot) as (s0 & evs0 & H0 & Hp0 & _).
  split; [now exists s0, evs0 |].
  unfold script. rewrite H0. cbn [bind iterate].
  rewrite (zero_baseline_raises_in_loop s0 i) by congruence. reflexivity.
Qed.

Lemma zero_baseline_script_witness :
  script "/logs/log_001.csv" (level_reading 0 0) [level_reading 0.05 1000]
  = Raise ZeroDivisionError.
Proof.
  apply (zero_baseline_script "/logs/log_001.csv" (level_reading 0 0)). reflexivity.
Defined.

(** ** The file as a table *)

Open Scope string_scope.

Lemma count_char_app (c : ascii) (s t : string) :
  count_char c (s ++ t) = (count_char c s + count_char c t)%nat.
Proof.
  induction s as [| c' s IH]; cbn [append count_char]; [reflexivity |].
  rewrite IH. lia.
Qed.

Lemma count_char_digits (c : ascii) (s : string) :
  is_digit c = false -> all_digits s = true -> count_char c s = O.
Proof.
  intros Hc. induction s as [| c' s IH]; cbn [all_digits count_char]; [reflexivity |].
  intros H. apply andb_true_iff in H as [Hd Hs].
  destruct (Ascii.eqb_spec c c') as [-> | _]; [congruence |].
  rewrite (IH Hs). reflexivity.
Qed.

(** A fixed-point numeral holds no separator. *)
Lemma count_char_fixed_point (c : ascii) (d : nat) (s : string) :
  is_digit c = false -> c <> "-"%char -> c <> "."%char ->
  fixed_point d s -> count_char c s = O.
Proof.
  intros Hc Hminus Hpoint (sign & ip & fp & -> & Hsign & _ & Hip & Hfp & _).
  rewrite !count_char_app.
  rewrite (count_char_digits c ip Hc Hip), (count_char_digits c fp Hc Hfp).
  assert (Hs : count_char c sign = O).
  { destruct Hsign as [-> | ->]; [reflexivity |].
    cbn. destruct (Ascii.eqb_spec c "-"); [contradiction | reflexivity]. }
  rewrite Hs. cbn. destruct (Ascii.eqb_spec c "."); [contradiction | reflexivity].
Qed.

Lemma data_line_fields (l : string) :
  data_line l ->
  exists body,
    l = body ++ LF
    /\ count_char "," body = 3%nat
    /\ count_char (ascii_of_nat 10) body = O.
Proof.
  intros (a & g & r & p & -> & Ha & Hg & Hr & Hp).
  exists (a ++ "," ++ g ++ "," ++ r ++ "," ++ p).
  split; [now rewrite !append_assoc |].
  rewrite !count_char_app.
  split.
  - rewrite (count_char_fixed_point "," 2 a), (count_char_fixed_point "," 3 g),
      (count_char_fixed_point "," 2 r), (count_char_fixed_point "," 2 p);
      try assumption; try reflexivity; discriminate.
  - rewrite (count_char_fixed_point (ascii_of_nat 10) 2 a),
      (count_char_fixed_point (ascii_of_nat 10) 3 g),
      (count_char_fixed_point (ascii_of_nat 10) 2 r),
      (count_char_fixed_point (ascii_of_nat 10) 2 p);
      try assumption; try reflexivity; discriminate.
Qed.

(** X20.  The file is a table: each entry of it, the header included, is
    one line, ended by its only line feed, and holds exactly three
    commas, so every row has the four columns the header names. *)
Theorem csv_rectangular (csv_path : string) (boot : Reading) (readings : list Reading)
        (s : State) (evs : list event) :
  script csv_path boot readings = Ok (s, evs) ->
  Forall (fun l => exists body,
              l = body ++ LF
              /\ count_char "," body = 3%nat
              /\ count_char (ascii_of_nat 10) body = O)
         (file_contents evs).
Proof.
  intros H.
  destruct (script_file_contents _ _ _ _ _ H) as (rows & -> & _ & Hall).
  constructor.
  - exists "alt_m,accel_g,roll_deg,pitch_deg". repeat split.
  - eapply Forall_impl; [| exact Hall]. apply data_line_fields.
Qed.

Close Scope string_scope.

Lemma csv_rectangular_witness :
  exists s evs,
    script "/logs/log_001.csv" (level_reading 0 1013.25)
           (repeat (level_reading 1 1013.25) 2) = Ok (s, evs)
    /\ List.length (file_contents evs) = 3%nat
    /\ Forall (fun l => exists body,
                   l = (body ++ LF)%string
                   /\ count_char "," body = 3%nat
                   /\ count_char (ascii_of_nat 10) body = O)
              (file_contents evs).
Proof.
  destruct (script_defined "/logs/log_001.csv" (level_reading 0 1013.25)
              (repeat (level_reading 1 1013.25) 2)) as (s & evs & H).
  - cbn. lra.
  - apply Forall_forall. intros i Hi. apply repeat_spec in Hi. subst i. cbn. lra.
  - exists s, evs. split; [exact H |]. split.
    + destruct (script_file_contents _ _ _ _ _ H) as (rows & -> & Hlen & _).
      cbn [List.length]. rewrite Hlen. reflexivity.
    + exact (csv_rectangular _ _ _ s evs H).
Defined.

(** ** The angles over time *)

(** X21.  With no gyro contribution the filter keeps the angles in
    range: a roll between -180 and 180 degrees and a pitch between -90
    and 90 degrees stay so. *)
Theorem filter_update_keeps_range (roll pitch ax ay az gx gy gz dt : R) :
  gx * dt = 0 -> gy * dt = 0 ->
  -180 <= roll <= 180 -> -90 <= pitch <= 90 ->
  exists roll' pitch',
    filter_update roll pitch ax ay az gx gy gz dt = Ok (roll', pitch')
    /\ -180 <= roll' <= 180
    /\ -90 <= pitch' <= 90.
Proof.
  intros Hgx Hgy Hr Hp.
  eexists. eexists. split; [apply filter_update_value |].
  rewrite Hgx, Hgy. unfold alpha.
  pose proof (atan2_range ay az) as [Hlo Hhi].
  pose proof (atan2_right_half (- ax) (sqrt (ay * ay + az * az)) (sqrt_pos _)) as [Plo Phi].
  apply degrees_lt in Hlo. apply degrees_le in Hhi, Plo, Phi.
  rewrite degrees_opp in Hlo, Plo.
  rewrite degrees_PI in Hlo, Hhi. rewrite degrees_half_PI in Plo, Phi.
  lra.
Qed.

Lemma filter_update_keeps_range_witness :
  exists roll' pitch',
    filter_update 170 (-80) 1 2 3 0 0 5 0.05 = Ok (roll', pitch')
    /\ -180 <= roll' <= 180
    /\ -90 <= pitch' <= 90.
Proof. apply filter_update_keeps_range; lra. Defined.

(** X22.  The filter does not wrap the roll: when the gyro-integrated
    roll reaches 188 degrees, the new roll is above 180 degrees. *)
Theorem filter_update_no_wrap (roll pitch ax ay az gx gy gz dt roll' pitch' : R) :
  filter_update roll pitch ax ay az gx gy gz dt = Ok (roll', pitch') ->
  188 <= roll + gx * dt ->
  180 < roll'.
Proof.
  rewrite filter_update_value. intros H Hbig. injection H as <- _.
  unfold alpha.
  pose proof (atan2_range ay az) as [Hlo _].
  apply degrees_lt in Hlo. rewrite degrees_opp, degrees_PI in Hlo.
  lra.
Qed.

Lemma filter_update_no_wrap_witness :
  exists roll' pitch',
    filter_update 170 0 0 0 1 400 0 0 0.05 = Ok (roll', pitch') /\ 180 < roll'.
Proof.
  pose proof (filter_update_value 170 0 0 0 1 400 0 0 0.05) as H.
  eexists. eexists. split; [exact H |].
  apply (filter_update_no_wrap 170 0 0 0 1 400 0 0 0.05 _ _ H). lra.
Defined.

(** X23.  The yaw rate is read and never used: two readings that differ
    only in [gz] give the same iteration, state and events alike. *)
Theorem yaw_rate_ignored (s : State) (i1 i2 : Reading) :
  now i1 = now i2 ->
  acceleration i1 = acceleration i2 ->
  pressure i1 = pressure i2 ->
  fst (gyro i1) = fst (gyro i2) ->
  loop_body s i1 = loop_body s i2.
Proof.
  intros Hnow Hacc Hp Hg. unfold loop_body.
  rewrite Hnow, Hacc, Hp.
  destruct (gyro i1) as [[gx1 gy1] gz1]. destruct (gyro i2) as [[gx2 gy2] gz2].
  cbn [fst] in Hg. injection Hg as -> ->.
  destruct (acceleration i2) as [[ax ay] az].
  destruct (alt_m (pressure i2) (p0 s)) as [alt | e |]; cbn [bind]; [| reflexivity | reflexivity].
  rewrite !filter_update_value. reflexivity.
Qed.

Lemma yaw_rate_ignored_witness :
  loop_body ground_state
    {| now := 0.05; acceleration := (0, 0, 9.80665); gyro := (1, 2, 300); pressure := 1000 |}
  = loop_body ground_state
      {| now := 0.05; acceleration := (0, 0, 9.80665); gyro := (1, 2, 0); pressure := 1000 |}.
Proof. apply yaw_rate_ignored; reflexivity. Defined.





